(** * comps-reveal: the Game class (game.js) and its entry point (main.js)

    A shallow embedding of the game engine: the lane grid, the cars, the
    spawner, the player controller with its endless-scroll shift, the
    collision check, the milestone reveals and the pause / resume / game-over
    protocol.  DOM rendering is left out (it never feeds back into the game
    state); timers, the keydown listener, [localStorage] and [Math.random]
    are kept as an explicit browser environment. *)

From Stdlib Require Import ZArith List String Bool Lia.
Import ListNotations.
Open Scope string_scope.
Open Scope list_scope.
Open Scope Z_scope.
#[local] Set Warnings "-register-all".

(* ================================================================== *)
(** ** Object construction: [new Game()] as main.js performs it        *)
(* ================================================================== *)

Module JS.

(** JavaScript values, as far as the constructor stores them. *)
Inductive Value : Type :=
| VUndefined
| VNull
| VBool (b : bool)
| VNum (n : Z)
| VStr (s : string)
| VArray (elems : list Value)
| VRecord (fields : list (string * Value))
| VFunction (name : string)
| VBound (name : string).

Inductive Error : Type :=
| TypeError (msg : string).

Definition Result (A : Type) : Type := (Error + A)%type.

Definition ret {A} (a : A) : Result A := inr a.

Definition bind {A B} (m : Result A) (k : A -> Result B) : Result B :=
  match m with
  | inl e => inl e
  | inr a => k a
  end.

Notation "x <- m ;; k" := (bind m (fun x => k))
  (at level 61, m at next level, right associativity).

(** An object: its own properties (latest assignment first) and the
    methods of its prototype. *)
Record Obj : Type := mkObj {
  own : list (string * Value);
  proto : list (string * Value)
}.

Fixpoint assoc (name : string) (l : list (string * Value)) : option Value :=
  match l with
  | [] => None
  | (k, v) :: rest => if String.eqb k name then Some v else assoc name rest
  end.

(** [this.name]: own property first, then the prototype, else
    [undefined]. *)
Definition get (o : Obj) (name : string) : Value :=
  match assoc name (own o) with
  | Some v => v
  | None =>
      match assoc name (proto o) with
      | Some v => v
      | None => VUndefined
      end
  end.

(** [this.name = v]. *)
Definition set (name : string) (v : Value) (o : Obj) : Obj :=
  mkObj ((name, v) :: own o) (proto o).

(** [v.bind(this)]: reading [bind] from [undefined] or [null] throws, and
    so does calling the [undefined] that any other non-function yields. *)
Definition bindThis (v : Value) : Result Value :=
  match v with
  | VFunction f => ret (VBound f)
  | VBound f => ret (VBound f)
  | VUndefined => inl (TypeError "Cannot read properties of undefined (reading 'bind')")
  | VNull => inl (TypeError "Cannot read properties of null (reading 'bind')")
  | _ => inl (TypeError "bind is not a function")
  end.

Definition method (name : string) : string * Value := (name, VFunction name).

(** Every method the class body of [Game] defines, in source order. *)
Definition Game_prototype : list (string * Value) :=
  map method
    [ "constructor"; "init"; "checkPermanentReveals"; "startGame";
      "renderGrid"; "renderPlayer"; "renderCars"; "getCell";
      "handleKeyPress"; "checkCollisions"; "startGameLoop";
      "startCarSpawning"; "spawnCars"; "updateScore";
      "checkCompetitionReveals"; "showRevealModal"; "pauseGame";
      "resumeGame"; "renderCompetitionCards"; "gameOver" ].

Definition competition (name city host date : string) : Value :=
  VRecord [ ("name", VStr name); ("city", VStr city);
            ("host", VStr host); ("date", VStr date) ].

Definition competitions : Value :=
  VArray
    [ competition "Nasha" "West Lafayette, IN" "Purdue" "Jan 31, 2026";
      competition "Blacksburg Ki Badmaash (BKB)" "Blacksburg, VA"
                  "Virginia Tech" "Feb 7, 2026";
      competition "River City Raas (RCR)" "Richmond, VA" "VCU"
                  "Feb 14, 2026";
      competition "Maryland Masti" "College Park, MD"
                  "University of Maryland" "Mar 7, 2026" ].

(** [this.name = this.name.bind(this)]. *)
Definition rebind (name : string) (this : Obj) : Result Obj :=
  f <- bindThis (get this name) ;;
  ret (set name f this).

(** The body of [constructor()]. *)
Definition constructor (this : Obj) : Result Obj :=
  let this := set "isPlaying" (VBool false) this in
  let this := set "score" (VNum 0) this in
  let this := set "playerRow" (VNum 14) this in
  let this := set "playerCol" (VNum 4) this in
  let this := set "gameSpeed" (VNum 400) this in
  let this := set "cars" (VArray []) this in
  let this := set "gameInterval" VNull this in
  let this := set "carInterval" VNull this in
  let this := set "gridRows" (VNum 15) this in
  let this := set "gridCols" (VNum 10) this in
  let this := set "competitions" competitions this in
  let this := set "revealedComps" (VArray []) this in
  let this := set "titleScreen" VNull this in
  let this := set "gameScreen" VNull this in
  let this := set "gameOverModal" VNull this in
  let this := set "gameGrid" VNull this in
  let this := set "scoreDisplay" VNull this in
  let this := set "competitionCards" VNull this in
  let this := set "playButton" VNull this in
  let this := set "playAgainButton" VNull this in
  let this := set "revealModal" VNull this in
  let this := set "isWaitingForInput" (VBool false) this in
  let this := set "touchStartX" (VNum 0) this in
  let this := set "touchStartY" (VNum 0) this in
  this <- rebind "handleKeyPress" this ;;
  this <- rebind "handleTouchStart" this ;;
  this <- rebind "handleTouchEnd" this ;;
  this <- rebind "checkCollisions" this ;;
  ret this.

(** [new Game()]: a fresh object on the class prototype, then the
    constructor. *)
Definition new_Game : Result Obj :=
  constructor (mkObj [] Game_prototype).

(** The DOMContentLoaded handler of main.js: [new Game()], then
    [game.init()]; [init] is whatever the method does once it runs. *)
Definition onDOMContentLoaded (init : Obj -> Result Obj) : Result Obj :=
  game <- new_Game ;;
  init game.

End JS.

(* ================================================================== *)
(** ** Numbers drawn by [Math.random()]                                 *)
(* ================================================================== *)

(** A binary64 number in [[0, 1)]: [mant / 2 ^ scale].  Every double in that
    range has this form with [0 <= mant < 2^53] and [53 <= scale <= 1074]
    (normal numbers with [2^52 <= mant], subnormals with [scale = 1074]). *)
Record double01 : Type := mkDouble {
  mant : Z;
  scale : Z
}.

Definition valid_draw (d : double01) : Prop :=
  0 <= mant d < 2 ^ 53 /\ 53 <= scale d <= 1074.

(** Round a non-negative integer to 53 significant bits, ties to even: what
    IEEE-754 multiplication does with the exact product's significand. *)
Definition round53 (n : Z) : Z :=
  let bits := Z.log2 n + 1 in
  if bits <=? 53 then n
  else
    let sh := bits - 53 in
    let q := Z.shiftr n sh in
    let rem := n mod 2 ^ sh in
    let half := 2 ^ (sh - 1) in
    let q' := if (half <? rem) || ((rem =? half) && Z.odd q) then q + 1 else q in
    Z.shiftl q' sh.

(** [Math.floor(d * c)] for a small positive integer constant [c]: the
    product is rounded to a double first, then floored. *)
Definition floor_times (c : Z) (d : double01) : Z :=
  round53 (c * mant d) / 2 ^ scale d.

(** [d > 0.5]. *)
Definition gt_half (d : double01) : bool :=
  2 ^ scale d <? 2 * mant d.

(** [n + 1] in binary64 arithmetic, for an integer-valued [n]: the exact
    sum rounded to 53 significant bits, ties to even.  Up to [2^53 - 1]
    that is [n + 1]; at [2^53] the sum rounds back to [2^53]. *)
Definition succ64 (n : Z) : Z :=
  if 0 <=? n + 1 then round53 (n + 1) else - round53 (- (n + 1)).

(* ================================================================== *)
(** ** Data model                                                       *)
(* ================================================================== *)

(** [car.direction] is only ever ['left'] or ['right']. *)
Inductive Direction : Type := left | right.

(** A car object [{ row, col, direction }]. *)
Record Car : Type := mkCar {
  row : Z;
  col : Z;
  direction : Direction
}.

(** The two interval callbacks the game installs. *)
Inductive Callback : Type := GameLoop | CarSpawner.

(** The fields of [this] that the game logic reads and writes.  The DOM
    references, [competitions], [gameSpeed] and the touch coordinates take
    no part in it. *)
Record Game : Type := mkGame {
  isPlaying : bool;
  score : Z;
  playerRow : Z;
  playerCol : Z;
  cars : list Car;
  gameInterval : option nat;
  carInterval : option nat;
  revealedComps : list nat;
  isWaitingForInput : bool
}.

(** What the game uses of the browser: the [playthroughs] item of
    [localStorage] (absent, or the number last stored), the live interval
    timers with the next free handle (handles are positive, hence truthy),
    whether [handleKeyPress] is registered for [keydown], and the numbers
    [Math.random()] is going to return with the count already consumed. *)
Record Browser : Type := mkBrowser {
  playthroughs : option Z;
  intervals : list (nat * Callback);
  nextHandle : nat;
  keydown : bool;
  random : nat -> double01;
  drawn : nat
}.

Record State : Type := mkState {
  this : Game;
  env : Browser
}.

(** [this.gridRows] and [this.gridCols]: assigned once by the constructor
    and never written again. *)
Definition gridRows : Z := 15.
Definition gridCols : Z := 10.

(** *** Field assignment *)

Definition set_isPlaying (v : bool) (w : State) : State :=
  let g := this w in
  mkState (mkGame v (score g) (playerRow g) (playerCol g) (cars g)
             (gameInterval g) (carInterval g) (revealedComps g)
             (isWaitingForInput g)) (env w).

Definition set_score (v : Z) (w : State) : State :=
  let g := this w in
  mkState (mkGame (isPlaying g) v (playerRow g) (playerCol g) (cars g)
             (gameInterval g) (carInterval g) (revealedComps g)
             (isWaitingForInput g)) (env w).

Definition set_playerRow (v : Z) (w : State) : State :=
  let g := this w in
  mkState (mkGame (isPlaying g) (score g) v (playerCol g) (cars g)
             (gameInterval g) (carInterval g) (revealedComps g)
             (isWaitingForInput g)) (env w).

Definition set_playerCol (v : Z) (w : State) : State :=
  let g := this w in
  mkState (mkGame (isPlaying g) (score g) (playerRow g) v (cars g)
             (gameInterval g) (carInterval g) (revealedComps g)
             (isWaitingForInput g)) (env w).

Definition set_cars (v : list Car) (w : State) : State :=
  let g := this w in
  mkState (mkGame (isPlaying g) (score g) (playerRow g) (playerCol g) v
             (gameInterval g) (carInterval g) (revealedComps g)
             (isWaitingForInput g)) (env w).

Definition set_gameInterval (v : option nat) (w : State) : State :=
  let g := this w in
  mkState (mkGame (isPlaying g) (score g) (playerRow g) (playerCol g) (cars g)
             v (carInterval g) (revealedComps g)
             (isWaitingForInput g)) (env w).

Definition set_carInterval (v : option nat) (w : State) : State :=
  let g := this w in
  mkState (mkGame (isPlaying g) (score g) (playerRow g) (playerCol g) (cars g)
             (gameInterval g) v (revealedComps g)
             (isWaitingForInput g)) (env w).

Definition set_revealedComps (v : list nat) (w : State) : State :=
  let g := this w in
  mkState (mkGame (isPlaying g) (score g) (playerRow g) (playerCol g) (cars g)
             (gameInterval g) (carInterval g) v
             (isWaitingForInput g)) (env w).

Definition set_isWaitingForInput (v : bool) (w : State) : State :=
  let g := this w in
  mkState (mkGame (isPlaying g) (score g) (playerRow g) (playerCol g) (cars g)
             (gameInterval g) (carInterval g) (revealedComps g) v) (env w).

(** *** Browser facilities *)

(** [setInterval(cb, ...)]: a fresh handle for a timer that now fires. *)
Definition setInterval (cb : Callback) (w : State) : nat * State :=
  let b := env w in
  let h := nextHandle b in
  (h, mkState (this w)
        (mkBrowser (playthroughs b) ((h, cb) :: intervals b) (S h)
           (keydown b) (random b) (drawn b))).

(** [clearInterval(h)]. *)
Definition clearInterval (h : nat) (w : State) : State :=
  let b := env w in
  mkState (this w)
    (mkBrowser (playthroughs b)
       (filter (fun t => negb (Nat.eqb (fst t) h)) (intervals b))
       (nextHandle b) (keydown b) (random b) (drawn b)).

(** [window.addEventListener('keydown', this.handleKeyPress)] and its
    removal. *)
Definition set_keydown (v : bool) (w : State) : State :=
  let b := env w in
  mkState (this w)
    (mkBrowser (playthroughs b) (intervals b) (nextHandle b) v
       (random b) (drawn b)).

(** [parseInt(localStorage.getItem('playthroughs') || '0')]: the item, when
    present, is taken to be a numeral, and [playthroughs] is the number
    [parseInt] reads from it. *)
Definition getPlaythroughs (w : State) : Z :=
  match playthroughs (env w) with
  | Some n => n
  | None => 0
  end.

(** [localStorage.setItem('playthroughs', n.toString())]: below [10^21]
    the string written is the decimal numeral of [n], which [parseInt]
    reads back as [n]. *)
Definition setPlaythroughs (n : Z) (w : State) : State :=
  let b := env w in
  mkState (this w)
    (mkBrowser (Some n) (intervals b) (nextHandle b) (keydown b)
       (random b) (drawn b)).

(** [Math.random()]. *)
Definition Math_random (w : State) : double01 * State :=
  let b := env w in
  (random b (drawn b),
   mkState (this w)
     (mkBrowser (playthroughs b) (intervals b) (nextHandle b) (keydown b)
        (random b) (S (drawn b)))).

(* ================================================================== *)
(** ** The methods of [Game]                                            *)
(* ================================================================== *)

(** [checkPermanentReveals()]. *)
Definition checkPermanentReveals (w : State) : State :=
  let playthroughs := getPlaythroughs w in
  if playthroughs >=? 3 then set_revealedComps [0; 1; 2; 3]%nat w
  else w.

(** [init()]: the DOM lookups and the click listeners aside, it checks the
    permanent reveals. *)
Definition init (w : State) : State :=
  checkPermanentReveals w.

(** [checkCollisions()]. *)
Definition checkCollisions (w : State) : bool :=
  existsb
    (fun car => (row car =? playerRow (this w)) && (col car =? playerCol (this w)))
    (cars (this w)).

(** [if (handle) clearInterval(handle)]. *)
Definition clearIfSet (handle : option nat) (w : State) : State :=
  match handle with
  | Some h => clearInterval h w
  | None => w
  end.

(** [pauseGame()]. *)
Definition pauseGame (w : State) : State :=
  let w := set_isPlaying false w in
  let w := clearIfSet (gameInterval (this w)) w in
  let w := clearIfSet (carInterval (this w)) w in
  w.

(** [gameOver()]. *)
Definition gameOver (w : State) : State :=
  let w := set_isPlaying false w in
  let w := clearIfSet (gameInterval (this w)) w in
  let w := clearIfSet (carInterval (this w)) w in
  let w := set_keydown false w in
  let playthroughs := getPlaythroughs w in
  let w := setPlaythroughs (succ64 playthroughs) w in
  w.

(** [showRevealModal(index)]. *)
Definition showRevealModal (index : nat) (w : State) : State :=
  let w := pauseGame w in
  let w := set_isWaitingForInput true w in
  w.

(** [this.revealedComps.includes(index)]. *)
Definition includes (l : list nat) (index : nat) : bool :=
  existsb (Nat.eqb index) l.

Definition milestones : list Z := [10; 20; 30; 40].

(** The callback [checkCompetitionReveals] gives to [milestones.forEach]. *)
Definition revealAt (milestone : Z) (index : nat) (w : State) : State :=
  if (score (this w) =? milestone) && negb (includes (revealedComps (this w)) index)
  then
    let w := set_revealedComps (revealedComps (this w) ++ [index]) w in
    let w := showRevealModal index w in
    w
  else w.

(** [array.forEach((x, index) => f(x, index))] from position [index] on. *)
Fixpoint forEachFrom (f : Z -> nat -> State -> State) (index : nat)
    (array : list Z) (w : State) : State :=
  match array with
  | [] => w
  | x :: rest => forEachFrom f (S index) rest (f x index w)
  end.

(** [checkCompetitionReveals()]. *)
Definition checkCompetitionReveals (w : State) : State :=
  forEachFrom revealAt 0%nat milestones w.

(** One iteration of the loop of [spawnCars]. *)
Definition spawnAttempt (w : State) : State :=
  let '(d, w) := Math_random w in
  let r := floor_times 12 d + 1 in
  let '(d, w) := Math_random w in
  let dir := if gt_half d then left else right in
  let c := match dir with left => gridCols - 1 | right => 0 end in
  if negb (existsb (fun car => row car =? r) (cars (this w)))
  then set_cars (cars (this w) ++ [mkCar r c dir]) w
  else w.

Fixpoint repeatAttempts (n : nat) (w : State) : State :=
  match n with
  | O => w
  | S n' => repeatAttempts n' (spawnAttempt w)
  end.

(** [spawnCars()]. *)
Definition spawnCars (w : State) : State :=
  let '(d, w) := Math_random w in
  let numCars := floor_times 4 d + 2 in
  repeatAttempts (Z.to_nat numCars) w.

(** One car of the [forEach] in the game loop. *)
Definition moveCar (car : Car) : Car :=
  match direction car with
  | left =>
      let c := col car - 1 in
      mkCar (row car) (if c <? 0 then gridCols - 1 else c) (direction car)
  | right =>
      let c := col car + 1 in
      mkCar (row car) (if c >=? gridCols then 0 else c) (direction car)
  end.

(** The callback [startGameLoop] installs. *)
Definition gameLoopTick (w : State) : State :=
  if negb (isPlaying (this w)) then w
  else
    let w := set_cars (map moveCar (cars (this w))) w in
    if checkCollisions w then gameOver w else w.

(** The callback [startCarSpawning] installs. *)
Definition carSpawnerTick (w : State) : State :=
  if isPlaying (this w) then spawnCars w else w.

(** [startGameLoop()]. *)
Definition startGameLoop (w : State) : State :=
  let '(h, w) := setInterval GameLoop w in
  set_gameInterval (Some h) w.

(** [startCarSpawning()]. *)
Definition startCarSpawning (w : State) : State :=
  let w := spawnCars w in
  let '(h, w) := setInterval CarSpawner w in
  set_carInterval (Some h) w.

(** [resumeGame()]. *)
Definition resumeGame (w : State) : State :=
  let w := set_isWaitingForInput false w in
  let w := set_isPlaying true w in
  let w := startGameLoop w in
  let w := startCarSpawning w in
  w.

(** [startGame()]. *)
Definition startGame (w : State) : State :=
  let w := set_isPlaying true w in
  let w := set_isWaitingForInput false w in
  let w := set_score 0 w in
  let w := set_playerRow 14 w in
  let w := set_playerCol 4 w in
  let w := set_cars [] w in
  let w := set_revealedComps [] w in
  let w := set_keydown true w in
  let w := startGameLoop w in
  let w := startCarSpawning w in
  w.

(** The [switch (event.key)] of [handleKeyPress]: the candidate position,
    or nothing for a key that is no arrow. *)
Definition candidate (key : string) (w : State) : option (Z * Z) :=
  let newRow := playerRow (this w) in
  let newCol := playerCol (this w) in
  if String.eqb key "ArrowUp" then
    Some (Z.max 0 (playerRow (this w) - 1), newCol)
  else if String.eqb key "ArrowDown" then
    Some (Z.min (gridRows - 1) (playerRow (this w) + 1), newCol)
  else if String.eqb key "ArrowLeft" then
    Some (newRow, Z.max 0 (playerCol (this w) - 1))
  else if String.eqb key "ArrowRight" then
    Some (newRow, Z.min (gridCols - 1) (playerCol (this w) + 1))
  else None.

(** The body of the infinite-scroll [if] of [handleKeyPress]. *)
Definition scrollShift (w : State) : State :=
  let w := set_playerRow (playerRow (this w) + 10) w in
  let w := set_cars
             (map (fun car => mkCar (row car + 10) (col car) (direction car))
                (cars (this w))) w in
  let w := set_cars (filter (fun car => row car <? gridRows) (cars (this w))) w in
  w.

(** [handleKeyPress(event)]. *)
Definition handleKeyPress (key : string) (w : State) : State :=
  if isWaitingForInput (this w) then resumeGame w
  else if negb (isPlaying (this w)) then w
  else
    match candidate key w with
    | None => w
    | Some (newRow, newCol) =>
        if negb (newRow =? playerRow (this w)) || negb (newCol =? playerCol (this w))
        then
          let oldRow := playerRow (this w) in
          let w := set_playerRow newRow w in
          let w := set_playerCol newCol w in
          let w :=
            if newRow <? oldRow
            then
              let w := set_score (succ64 (score (this w))) w in
              checkCompetitionReveals w
            else w in
          let w :=
            if (score (this w) >? 13) && (playerRow (this w) <? 5)
            then scrollShift w
            else w in
          if checkCollisions w then gameOver w else w
        else w
    end.

(* ================================================================== *)
(** ** Events and reachable states                                      *)
(* ================================================================== *)

(** What an interval timer runs when it fires. *)
Definition fire (cb : Callback) (w : State) : State :=
  match cb with
  | GameLoop => gameLoopTick w
  | CarSpawner => carSpawnerTick w
  end.

(** One turn of the event loop inside a run: a key press while the
    listener is registered, or a live interval timer firing. *)
Inductive runStep : State -> State -> Prop :=
| step_key (key : string) (w : State) :
    keydown (env w) = true ->
    runStep w (handleKeyPress key w)
| step_timer (h : nat) (cb : Callback) (w : State) :
    In (h, cb) (intervals (env w)) ->
    runStep w (fire cb w).

(** Any turn of the event loop: a click on a play button starts a new run,
    everything else happens inside the current one. *)
Inductive step : State -> State -> Prop :=
| step_click (w : State) :
    step w (startGame w)
| step_run (w w' : State) :
    runStep w w' ->
    step w w'.

(** The states of a session from its first run start on. *)
Inductive reachable : State -> Prop :=
| reach_start (w0 : State) :
    reachable (startGame w0)
| reach_step (w w' : State) :
    reachable w -> step w w' -> reachable w'.

(** The rows of the cars, in array order. *)
Definition carRows (w : State) : list Z :=
  map row (cars (this w)).

(** The fields the constructor assigns, in a browser that has stored [n]
    playthroughs and whose [Math.random()] always returns [d]. *)
Definition freshGame : Game :=
  mkGame false 0 14 4 [] None None [] false.

Definition loaded (n : option Z) (d : double01) : State :=
  mkState freshGame (mkBrowser n [] 1%nat false (fun _ => d) 0%nat).

(* ================================================================== *)
(** ** Rendering                                                        *)
(* ================================================================== *)

(** An entry of [this.competitions]. *)
Record Competition : Type := mkCompetition {
  name : string;
  city : string;
  host : string;
  date : string
}.

Definition competitions : list Competition :=
  [ mkCompetition "Nasha" "West Lafayette, IN" "Purdue" "Jan 31, 2026";
    mkCompetition "Blacksburg Ki Badmaash (BKB)" "Blacksburg, VA"
                  "Virginia Tech" "Feb 7, 2026";
    mkCompetition "River City Raas (RCR)" "Richmond, VA" "VCU" "Feb 14, 2026";
    mkCompetition "Maryland Masti" "College Park, MD"
                  "University of Maryland" "Mar 7, 2026" ].

(** The [forEach] of [renderCompetitionCards] from position [index] on: the
    competitions that get a card, in the order the cards are appended. *)
Fixpoint cardsFrom (index : nat) (comps : list Competition)
    (revealed : list nat) : list Competition :=
  match comps with
  | [] => []
  | comp :: rest =>
      if includes revealed index
      then comp :: cardsFrom (S index) rest revealed
      else cardsFrom (S index) rest revealed
  end.

(** [renderCompetitionCards()]: the container is emptied first, so these
    are all the cards it shows afterwards. *)
Definition renderCompetitionCards (w : State) : list Competition :=
  cardsFrom 0%nat competitions (revealedComps (this w)).

(** A grid cell: its [data-row] and [data-col], and whether it carries the
    [lane] class. *)
Record Cell : Type := mkCell {
  dataRow : Z;
  dataCol : Z;
  lane : bool
}.

(** [for (let i = start; ...; i++) body(i)] with [n] iterations left,
    collecting the cells the body appends. *)
Fixpoint forLoop (n : nat) (i : Z) (body : Z -> list Cell) : list Cell :=
  match n with
  | O => []
  | S n' => body i ++ forLoop n' (i + 1) body
  end.

(** The cells [renderGrid()] appends to the emptied grid, in order. *)
Definition renderGrid : list Cell :=
  forLoop (Z.to_nat gridRows) 0 (fun r =>
    forLoop (Z.to_nat gridCols) 0 (fun c =>
      [mkCell r c ((r >? 0) && (r <? 14))])).

(** [getCell(row, col)]: the first cell of the grid with these data
    attributes, if there is one. *)
Definition getCell (r c : Z) : option Cell :=
  find (fun cell => (dataRow cell =? r) && (dataCol cell =? c)) renderGrid.

(** [renderPlayer()]: the cell that receives the player element, if any. *)
Definition renderPlayer (w : State) : option Cell :=
  getCell (playerRow (this w)) (playerCol (this w)).

(** [renderCars()]: for each car that has a cell, in array order, the cell
    and the direction class of the car element appended to it. *)
Definition renderCars (w : State) : list (Cell * Direction) :=
  flat_map
    (fun car =>
       match getCell (row car) (col car) with
       | Some cell => [(cell, direction car)]
       | None => []
       end)
    (cars (this w)).

(* ================================================================== *)
(** ** Auxiliary definitions for the proofs                             *)
(* ================================================================== *)

(** [k] more numbers taken from [Math.random()]. *)
Definition consume (k : nat) (w : State) : State :=
  let b := env w in
  mkState (this w)
    (mkBrowser (playthroughs b) (intervals b) (nextHandle b) (keydown b)
       (random b) (k + drawn b)).

(** Score, player cell and cars agree. *)
Definition sameBoard (w w' : State) : Prop :=
  score (this w') = score (this w) /\
  playerRow (this w') = playerRow (this w) /\
  playerCol (this w') = playerCol (this w) /\
  cars (this w') = cars (this w).

(** The state of a committed move once the score has been settled: the
    player stands on the candidate cell, an upward move has scored one
    point (and run the milestone check), and the cars are untouched. *)
Definition afterScore (newRow newCol : Z) (w : State) : State :=
  let oldRow := playerRow (this w) in
  let w := set_playerRow newRow w in
  let w := set_playerCol newCol w in
  if newRow <? oldRow
  then checkCompetitionReveals (set_score (succ64 (score (this w))) w)
  else w.

(** [car] moved ten rows down. *)
Definition shifted (car : Car) : Car :=
  mkCar (row car + 10) (col car) (direction car).

(** The player stands on a grid cell and every car is on a grid column. *)
Definition onGrid (w : State) : Prop :=
  (0 <= playerRow (this w) < gridRows /\ 0 <= playerCol (this w) < gridCols) /\
  Forall (fun car => 0 <= col car < gridCols) (cars (this w)).

(** Every number [Math.random()] is going to return is a double in
    [[0, 1)]. *)
Definition drawsValid (w : State) : Prop :=
  forall n : nat, valid_draw (random (env w) n).

(** A car as [spawnCars] creates it: on a row from 1 to 12, at the right
    edge when it moves left and at the left edge when it moves right. *)
Definition freshCar (car : Car) : Prop :=
  1 <= row car <= 12 /\
  col car = match direction car with left => gridCols - 1 | right => 0 end.

(** [if (handle) clearInterval(handle)] on the list of live timers. *)
Definition clearHandle (handle : option nat) (l : list (nat * Callback)) :
    list (nat * Callback) :=
  match handle with
  | Some h => filter (fun t => negb (Nat.eqb (fst t) h)) l
  | None => l
  end.

(** A session in which a run is only ever started between runs: the first
    start finds no timer live, and a later click on a play button comes
    when the game is not playing (the title screen and the game-over
    dialog are the only places that show one). *)
Inductive orderly : State -> Prop :=
| orderly_start (w0 : State) :
    intervals (env w0) = [] ->
    orderly (startGame w0)
| orderly_run (w w' : State) :
    orderly w -> runStep w w' -> orderly w'
| orderly_restart (w : State) :
    orderly w -> isPlaying (this w) = false -> orderly (startGame w).

(** No timer is live and the game is not playing, or exactly the two
    recorded timers are live and the game is playing. *)
Definition timersInStep (w : State) : Prop :=
  (intervals (env w) = [] /\ isPlaying (this w) = false) \/
  (exists g c : nat,
     g <> c /\
     intervals (env w) = [(c, CarSpawner); (g, GameLoop)] /\
     gameInterval (this w) = Some g /\
     carInterval (this w) = Some c /\
     isPlaying (this w) = true /\
     isWaitingForInput (this w) = false /\
     keydown (env w) = true).

(** A committed move to [(newRow, newCol)]: score and milestones, the
    scroll shift, the collision check. *)
Definition commitMove (newRow newCol : Z) (w : State) : State :=
  let w1 := afterScore newRow newCol w in
  let w2 := if (score (this w1) >? 13) && (playerRow (this w1) <? 5)
            then scrollShift w1 else w1 in
  if checkCollisions w2 then gameOver w2 else w2.

(** How far the player has come: the score is never negative; up to score
    13 the player is at most [score] rows above the start row, beyond it
    never above row 5; and the revealed indices are those of the
    thresholds the score has reached. *)
Definition runInv (w : State) : Prop :=
  0 <= score (this w) /\
  (score (this w) <= 13 -> 14 <= playerRow (this w) + score (this w)) /\
  (13 < score (this w) -> 5 <= playerRow (this w)) /\
  forall i : nat,
    In i (revealedComps (this w)) <->
    exists m, nth_error milestones i = Some m /\ m <= score (this w).

(** *** Sample states *)

(** A browser in which [Math.random()] keeps returning 0.75. *)
Definition quietBrowser : Browser :=
  mkBrowser None [(1%nat, GameLoop); (2%nat, CarSpawner)] 3%nat true
    (fun _ => mkDouble (3 * 2 ^ 51) 53) 0%nat.

(** Mid-run: score 13, player on row 5, three cars, milestone 0 revealed. *)
Definition nearTop : State :=
  mkState
    (mkGame true 13 5 4
       [mkCar 3 2 left; mkCar 7 0 right; mkCar 12 9 left]
       (Some 1%nat) (Some 2%nat) [0%nat] false)
    quietBrowser.

(** Score 14, player on row 4 with a car on the same cell. *)
Definition onCar : State :=
  mkState
    (mkGame true 14 4 4
       [mkCar 4 4 left; mkCar 9 1 right]
       (Some 1%nat) (Some 2%nat) [0%nat] false)
    quietBrowser.



(** A run start with an empty road. *)
Definition emptyRoad : State :=
  mkState (mkGame true 0 14 4 [] (Some 1%nat) (Some 2%nat) [] false)
    quietBrowser.

Fixpoint pressKey (key : string) (n : nat) (w : State) : State :=
  match n with
  | O => w
  | S n' => pressKey key n' (handleKeyPress key w)
  end.

(* ================================================================== *)
(** ** Construction fails                                               *)
(* ================================================================== *)

(** C1: [new Game()] throws a TypeError: the class defines neither
    [handleTouchStart] nor [handleTouchEnd], so the constructor reads
    [bind] from [undefined]; main.js therefore never reaches [init],
    whatever [init] would do. *)
Theorem new_Game_throws :
  JS.assoc "handleTouchStart" JS.Game_prototype = None /\
  JS.assoc "handleTouchEnd" JS.Game_prototype = None /\
  JS.new_Game =
    inl (JS.TypeError "Cannot read properties of undefined (reading 'bind')") /\
  forall init : JS.Obj -> JS.Result JS.Obj,
    JS.onDOMContentLoaded init =
      inl (JS.TypeError "Cannot read properties of undefined (reading 'bind')").
Proof.
  repeat split; try reflexivity.
Qed.

(* ================================================================== *)
(** ** The spawner's lane rows                                          *)
(* ================================================================== *)

Lemma round_step (n sh : Z) :
  0 <= n -> 1 <= sh ->
  let q := Z.shiftr n sh in
  let rem := n mod 2 ^ sh in
  let half := 2 ^ (sh - 1) in
  let q' := if (half <? rem) || ((rem =? half) && Z.odd q) then q + 1 else q in
  n - half <= Z.shiftl q' sh <= n + half.
Proof.
  intros Hn Hsh q rem half q'.
  assert (Hpow : 2 ^ sh = 2 * half).
  { unfold half. replace sh with (Z.succ (sh - 1)) at 1 by lia.
    rewrite Z.pow_succ_r by lia. reflexivity. }
  assert (Hhalf : 0 < half) by (unfold half; apply Z.pow_pos_nonneg; lia).
  assert (Hq : q = n / 2 ^ sh) by (unfold q; apply Z.shiftr_div_pow2; lia).
  assert (Hdm : n = 2 ^ sh * q + rem)
    by (rewrite Hq; unfold rem; apply Z.div_mod; lia).
  assert (Hrem : 0 <= rem < 2 ^ sh) by (unfold rem; apply Z.mod_pos_bound; lia).
  rewrite Z.shiftl_mul_pow2 by lia.
  unfold q'.
  destruct (Z.ltb_spec half rem); simpl.
  - nia.
  - destruct (Z.eqb_spec rem half); simpl.
    + destruct (Z.odd q); nia.
    + nia.
Qed.

(** Rounding a product below [2^57] moves it by at most 8. *)
Lemma round53_bounds (n : Z) :
  0 <= n < 2 ^ 57 -> 0 <= round53 n <= n + 8.
Proof.
  intros [Hn Hlt]. unfold round53.
  destruct (Z.leb_spec (Z.log2 n + 1) 53) as [Hb | Hb]; [lia |].
  assert (Hpos : 0 < n).
  { destruct (Z.eq_dec n 0) as [-> | ]; [simpl in Hb; lia | lia]. }
  assert (Hlog : Z.log2 n < 57) by (apply Z.log2_lt_pow2; lia).
  pose proof (round_step n (Z.log2 n + 1 - 53) Hn ltac:(lia)) as H.
  cbv zeta in H.
  assert (Hh : 0 < 2 ^ (Z.log2 n + 1 - 53 - 1) <= 8).
  { split; [apply Z.pow_pos_nonneg; lia |].
    change 8 with (2 ^ 3). apply Z.pow_le_mono_r; lia. }
  assert (Hbig : 2 ^ 53 <= n) by (apply Z.log2_le_pow2; lia).
  lia.
Qed.

(** [Math.floor(Math.random() * 12)] lies in [[0, 11]]. *)
Lemma floor_times_12_range (d : double01) :
  valid_draw d -> 0 <= floor_times 12 d <= 11.
Proof.
  intros [[Hm0 Hm1] [Hs0 Hs1]]. unfold floor_times.
  assert (Hr : 0 <= round53 (12 * mant d) <= 12 * mant d + 8)
    by (apply round53_bounds; lia).
  assert (Hp : 2 ^ 53 <= 2 ^ scale d) by (apply Z.pow_le_mono_r; lia).
  split.
  - apply Z.div_pos; lia.
  - enough (round53 (12 * mant d) / 2 ^ scale d < 12) by lia.
    apply Z.div_lt_upper_bound; lia.
Qed.

(** Rounding keeps a number of at least [2^53] at or above [2^53]. *)
Lemma round53_large (m : Z) : 2 ^ 53 <= m -> 2 ^ 53 <= round53 m.
Proof.
  intros Hm. unfold round53.
  destruct (Z.leb_spec (Z.log2 m + 1) 53) as [Hb | Hb]; [exact Hm |].
  assert (Hpos : 0 < m) by lia.
  destruct (Z.log2_spec m Hpos) as [Hlo _].
  set (sh := Z.log2 m + 1 - 53) in *.
  assert (Hsh : 1 <= sh) by (unfold sh; lia).
  assert (Hsplit : 2 ^ Z.log2 m = 2 ^ sh * 2 ^ 52).
  { rewrite <- Z.pow_add_r by lia. f_equal. unfold sh. lia. }
  assert (Hp : 0 < 2 ^ sh) by (apply Z.pow_pos_nonneg; lia).
  assert (Hq : 2 ^ 52 <= Z.shiftr m sh).
  { rewrite Z.shiftr_div_pow2 by lia.
    apply Z.div_le_lower_bound; [exact Hp | lia]. }
  cbv zeta. rewrite Z.shiftl_mul_pow2 by lia.
  assert (Hlow : 2 ^ 52 <=
            (if (2 ^ (sh - 1) <? m mod 2 ^ sh) ||
                ((m mod 2 ^ sh =? 2 ^ (sh - 1)) && Z.odd (Z.shiftr m sh))
             then Z.shiftr m sh + 1 else Z.shiftr m sh)).
  { destruct ((2 ^ (sh - 1) <? m mod 2 ^ sh) ||
              ((m mod 2 ^ sh =? 2 ^ (sh - 1)) && Z.odd (Z.shiftr m sh))); lia. }
  assert (H2 : 2 <= 2 ^ sh).
  { change 2 with (2 ^ 1) at 1. apply Z.pow_le_mono_r; lia. }
  change (2 ^ 53) with (2 ^ 52 * 2). nia.
Qed.

(** Below [2^53] the binary64 successor is the successor. *)
Lemma succ64_small (n : Z) : 0 <= n < 2 ^ 53 -> succ64 n = n + 1.
Proof.
  intros [H0 H1]. unfold succ64.
  destruct (Z.leb_spec 0 (n + 1)) as [_ | Hneg]; [| lia].
  destruct (Z.eq_dec (n + 1) (2 ^ 53)) as [-> | Hne]; [reflexivity |].
  unfold round53.
  destruct (Z.leb_spec (Z.log2 (n + 1) + 1) 53) as [_ | Hb]; [reflexivity |].
  assert (Hlog : Z.log2 (n + 1) < 53) by (apply Z.log2_lt_pow2; lia).
  lia.
Qed.


Lemma succ64_cases (n : Z) :
  0 <= n ->
  (n < 2 ^ 53 /\ succ64 n = n + 1) \/ (2 ^ 53 <= n /\ 2 ^ 53 <= succ64 n).
Proof.
  intros H0. destruct (Z.lt_ge_cases n (2 ^ 53)) as [Hlt | Hge].
  - left. split; [exact Hlt | apply succ64_small; lia].
  - right. split; [exact Hge |]. unfold succ64.
    destruct (Z.leb_spec 0 (n + 1)) as [_ | Hneg]; [| lia].
    apply round53_large. lia.
Qed.

(** Between 0 and [2^53] it adds one and stops at [2^53]. *)
Lemma succ64_saturates (n : Z) :
  0 <= n <= 2 ^ 53 -> succ64 n = Z.min (n + 1) (2 ^ 53).
Proof.
  intros [H0 H1]. destruct (Z.eq_dec n (2 ^ 53)) as [-> | Hne].
  - reflexivity.
  - rewrite succ64_small by lia. lia.
Qed.

(** X14: every lane row from 1 to 12 is drawn by some [Math.random()]:
    for each such row there is a double in [[0, 1)] that the spawner's
    row formula maps to it. *)
Lemma spawn_rows_attained (r : Z) :
  1 <= r <= 12 -> exists d, valid_draw d /\ floor_times 12 d + 1 = r.
Proof.
  intros Hr.
  assert (Hcases : r = 1 \/ r = 2 \/ r = 3 \/ r = 4 \/ r = 5 \/ r = 6 \/
                   r = 7 \/ r = 8 \/ r = 9 \/ r = 10 \/ r = 11 \/ r = 12) by lia.
  assert (Hv : forall j, 0 <= j < 16 -> valid_draw (mkDouble (j * 2 ^ 49) 53))
    by (intros j Hj; unfold valid_draw; simpl mant; simpl scale; lia).
  repeat (destruct Hcases as [-> | Hcases]); [ .. | subst r ].
  - exists (mkDouble (0 * 2 ^ 49) 53); split; [apply Hv; lia | reflexivity].
  - exists (mkDouble (2 * 2 ^ 49) 53); split; [apply Hv; lia | reflexivity].
  - exists (mkDouble (3 * 2 ^ 49) 53); split; [apply Hv; lia | reflexivity].
  - exists (mkDouble (4 * 2 ^ 49) 53); split; [apply Hv; lia | reflexivity].
  - exists (mkDouble (6 * 2 ^ 49) 53); split; [apply Hv; lia | reflexivity].
  - exists (mkDouble (7 * 2 ^ 49) 53); split; [apply Hv; lia | reflexivity].
  - exists (mkDouble (8 * 2 ^ 49) 53); split; [apply Hv; lia | reflexivity].
  - exists (mkDouble (10 * 2 ^ 49) 53); split; [apply Hv; lia | reflexivity].
  - exists (mkDouble (11 * 2 ^ 49) 53); split; [apply Hv; lia | reflexivity].
  - exists (mkDouble (12 * 2 ^ 49) 53); split; [apply Hv; lia | reflexivity].
  - exists (mkDouble (14 * 2 ^ 49) 53); split; [apply Hv; lia | reflexivity].
  - exists (mkDouble (15 * 2 ^ 49) 53); split; [apply Hv; lia | reflexivity].
Qed.

(** C2 (as the code has it): a spawn attempt either leaves the cars alone
    or appends one car whose row lies in [[1, 12]]; whatever number
    [Math.random()] returns, the row is never 13. *)
Theorem spawnAttempt_row_range (w : State) :
  valid_draw (random (env w) (drawn (env w))) ->
  cars (this (spawnAttempt w)) = cars (this w) \/
  exists car,
    cars (this (spawnAttempt w)) = cars (this w) ++ [car] /\
    1 <= row car <= 12 /\ row car <> 13.
Proof.
  intros Hd. apply floor_times_12_range in Hd.
  unfold spawnAttempt, Math_random. cbn [fst snd this env cars random drawn].
  match goal with
  | |- context [if negb ?b then _ else _] => destruct b
  end; cbn [negb]; [left; reflexivity | right].
  eexists. split; [reflexivity |]. cbn [row]. lia.
Qed.

(** The largest double below 1 gives row 12. *)
Lemma spawnAttempt_row_range_witness :
  valid_draw (random (env (loaded None (mkDouble (2 ^ 53 - 1) 53)))
                (drawn (env (loaded None (mkDouble (2 ^ 53 - 1) 53))))) /\
  (cars (this (spawnAttempt (loaded None (mkDouble (2 ^ 53 - 1) 53)))) =
     cars (this (loaded None (mkDouble (2 ^ 53 - 1) 53))) \/
   exists car,
     cars (this (spawnAttempt (loaded None (mkDouble (2 ^ 53 - 1) 53)))) =
       cars (this (loaded None (mkDouble (2 ^ 53 - 1) 53))) ++ [car] /\
     1 <= row car <= 12 /\ row car <> 13).
Proof.
  assert (Hv : valid_draw (random (env (loaded None (mkDouble (2 ^ 53 - 1) 53)))
                (drawn (env (loaded None (mkDouble (2 ^ 53 - 1) 53))))))
    by (unfold valid_draw; simpl; lia).
  split; [exact Hv |].
  apply (spawnAttempt_row_range (loaded None (mkDouble (2 ^ 53 - 1) 53)) Hv).
Defined.

Example spawnAttempt_largest_draw :
  cars (this (spawnAttempt (loaded None (mkDouble (2 ^ 53 - 1) 53)))) =
    [mkCar 12 9 left].
Proof. reflexivity. Qed.

(* ================================================================== *)
(** ** What spawning leaves alone                                       *)
(* ================================================================== *)

Lemma set_cars_consume_twice (cs cs' : list Car) (k k' : nat) (w : State) :
  set_cars cs (consume k (set_cars cs' (consume k' w))) =
  set_cars cs (consume (k + k') w).
Proof.
  unfold set_cars, consume. cbn. rewrite Nat.add_assoc. reflexivity.
Qed.

Lemma set_cars_same (w : State) : set_cars (cars (this w)) (consume 0 w) = w.
Proof. destruct w as [[] []]. reflexivity. Qed.

(** A spawn attempt changes the cars and the random position only. *)
Lemma spawnAttempt_shape (w : State) :
  spawnAttempt w = set_cars (cars (this (spawnAttempt w))) (consume 2 w).
Proof.
  unfold spawnAttempt, Math_random. cbn [fst snd this env cars random drawn].
  match goal with
  | |- context [if negb ?b then _ else _] => destruct b
  end; cbn [negb]; destruct w as [[] []]; reflexivity.
Qed.

Lemma repeatAttempts_shape (n : nat) (w : State) :
  repeatAttempts n w =
  set_cars (cars (this (repeatAttempts n w))) (consume (2 * n) w).
Proof.
  revert w. induction n as [| n IH]; intros w.
  - simpl. symmetry. apply set_cars_same.
  - cbn [repeatAttempts]. rewrite IH at 1.
    rewrite (spawnAttempt_shape w) at 2.
    rewrite set_cars_consume_twice. f_equal. f_equal. lia.
Qed.

Lemma spawnCars_shape (w : State) :
  exists k, spawnCars w = set_cars (cars (this (spawnCars w))) (consume k w).
Proof.
  unfold spawnCars, Math_random.
  cbn [fst snd this env cars random drawn].
  match goal with
  | |- context [repeatAttempts ?n ?w'] =>
      exists (2 * n + 1)%nat; rewrite (repeatAttempts_shape n w') at 1
  end.
  destruct w as [[] []]. unfold set_cars, consume. cbn.
  f_equal. f_equal. lia.
Qed.

(** Replace a [spawnCars] call in the goal by its shape. *)
Ltac spawn_shape :=
  match goal with
  | |- context [spawnCars ?w] =>
      let k := fresh "k" in
      let Hk := fresh "Hk" in
      destruct (spawnCars_shape w) as [k Hk];
      rewrite Hk; clear Hk
  end.

Lemma startCarSpawning_this (w : State) :
  this (startCarSpawning w) =
  mkGame (isPlaying (this w)) (score (this w)) (playerRow (this w))
    (playerCol (this w)) (cars (this (spawnCars w))) (gameInterval (this w))
    (Some (nextHandle (env w))) (revealedComps (this w))
    (isWaitingForInput (this w)).
Proof.
  unfold startCarSpawning, setInterval. spawn_shape. reflexivity.
Qed.

(* ================================================================== *)
(** ** Run start and the revealed milestones                            *)
(* ================================================================== *)

(** C3 (as the code has it): [startGame] always leaves the
    revealed-milestones array empty, whatever it held before and whatever
    play count is stored. *)
Theorem startGame_clears_revealedComps (w : State) :
  revealedComps (this (startGame w)) = [].
Proof.
  unfold startGame. rewrite startCarSpawning_this. reflexivity.
Qed.

(** A browser that has stored three playthroughs: [init] pre-seeds all four
    indices, and the run start drops them again. *)
Lemma startGame_drops_preseed :
  getPlaythroughs (loaded (Some 3) (mkDouble 0 53)) >= 3 /\
  revealedComps (this (init (loaded (Some 3) (mkDouble 0 53)))) =
    [0; 1; 2; 3]%nat /\
  ~ (forall i, In i [0; 1; 2; 3]%nat ->
       In i (revealedComps
               (this (startGame (init (loaded (Some 3) (mkDouble 0 53))))))).
Proof.
  split; [vm_compute; discriminate |]. split; [reflexivity |].
  intros H. specialize (H 0%nat (or_introl eq_refl)).
  vm_compute in H. exact H.
Qed.

(* ================================================================== *)
(** ** What pausing, revealing and game over leave alone                *)
(* ================================================================== *)

Lemma sameBoard_refl (w : State) : sameBoard w w.
Proof. repeat split. Qed.

Lemma sameBoard_trans (w1 w2 w3 : State) :
  sameBoard w1 w2 -> sameBoard w2 w3 -> sameBoard w1 w3.
Proof.
  unfold sameBoard. intros (? & ? & ? & ?) (? & ? & ? & ?).
  repeat split; congruence.
Qed.

Lemma clearIfSet_this (handle : option nat) (w : State) :
  this (clearIfSet handle w) = this w.
Proof. destruct handle; reflexivity. Qed.

Lemma pauseGame_this (w : State) :
  this (pauseGame w) = this (set_isPlaying false w).
Proof. unfold pauseGame. rewrite !clearIfSet_this. reflexivity. Qed.

Lemma gameOver_this (w : State) :
  this (gameOver w) = this (set_isPlaying false w).
Proof.
  unfold gameOver, setPlaythroughs, set_keydown.
  cbn [this]. rewrite !clearIfSet_this. reflexivity.
Qed.

Lemma gameOver_board (w : State) : sameBoard w (gameOver w).
Proof. unfold sameBoard. rewrite gameOver_this. repeat split. Qed.

Lemma showRevealModal_this (index : nat) (w : State) :
  this (showRevealModal index w) =
  this (set_isWaitingForInput true (set_isPlaying false w)).
Proof.
  unfold showRevealModal, set_isWaitingForInput. cbn [this].
  rewrite pauseGame_this. reflexivity.
Qed.

Lemma revealAt_board (milestone : Z) (index : nat) (w : State) :
  sameBoard w (revealAt milestone index w).
Proof.
  unfold revealAt.
  destruct ((score (this w) =? milestone) &&
            negb (includes (revealedComps (this w)) index)).
  - unfold sameBoard. rewrite showRevealModal_this. repeat split.
  - apply sameBoard_refl.
Qed.

Lemma forEachFrom_revealAt_board (ms : list Z) (index : nat) (w : State) :
  sameBoard w (forEachFrom revealAt index ms w).
Proof.
  revert index w. induction ms as [| m ms IH]; intros index w.
  - apply sameBoard_refl.
  - cbn [forEachFrom].
    eapply sameBoard_trans; [apply revealAt_board | apply IH].
Qed.

Lemma checkCompetitionReveals_board (w : State) :
  sameBoard w (checkCompetitionReveals w).
Proof. apply forEachFrom_revealAt_board. Qed.

Lemma afterScore_board (newRow newCol : Z) (w : State) :
  score (this (afterScore newRow newCol w)) =
    (if newRow <? playerRow (this w)
     then succ64 (score (this w)) else score (this w)) /\
  playerRow (this (afterScore newRow newCol w)) = newRow /\
  playerCol (this (afterScore newRow newCol w)) = newCol /\
  cars (this (afterScore newRow newCol w)) = cars (this w).
Proof.
  unfold afterScore. cbv zeta.
  destruct (newRow <? playerRow (this w)).
  - match goal with
    | |- context [checkCompetitionReveals ?w'] =>
        destruct (checkCompetitionReveals_board w') as (-> & -> & -> & ->)
    end.
    repeat split.
  - repeat split.
Qed.

(** [handleKeyPress] on a committed move, in terms of [afterScore]. *)
Lemma handleKeyPress_committed (key : string) (w : State) (newRow newCol : Z) :
  isWaitingForInput (this w) = false ->
  isPlaying (this w) = true ->
  candidate key w = Some (newRow, newCol) ->
  newRow <> playerRow (this w) \/ newCol <> playerCol (this w) ->
  handleKeyPress key w =
    let w1 := afterScore newRow newCol w in
    let w2 := if (score (this w1) >? 13) && (playerRow (this w1) <? 5)
              then scrollShift w1 else w1 in
    if checkCollisions w2 then gameOver w2 else w2.
Proof.
  intros Hwait Hplay Hcand Hchg.
  unfold handleKeyPress. rewrite Hwait, Hplay, Hcand. cbn [negb].
  assert (Hb : negb (newRow =? playerRow (this w)) ||
               negb (newCol =? playerCol (this w)) = true).
  { destruct (Z.eqb_spec newRow (playerRow (this w)));
      destruct (Z.eqb_spec newCol (playerCol (this w))); cbn; try reflexivity.
    lia. }
  rewrite Hb. reflexivity.
Qed.

(* ================================================================== *)
(** ** The scroll shift                                                 *)
(* ================================================================== *)

Lemma scrollShift_this (w : State) :
  this (scrollShift w) =
  mkGame (isPlaying (this w)) (score (this w)) (playerRow (this w) + 10)
    (playerCol (this w))
    (filter (fun car => row car <? gridRows) (map shifted (cars (this w))))
    (gameInterval (this w)) (carInterval (this w)) (revealedComps (this w))
    (isWaitingForInput (this w)).
Proof. reflexivity. Qed.

Lemma scrollShift_env (w : State) : env (scrollShift w) = env w.
Proof. reflexivity. Qed.

Lemma in_shifted_cars (cs : list Car) (car' : Car) :
  In car' (filter (fun car => row car <? gridRows) (map shifted cs)) <->
  exists car, In car cs /\ row car' = row car + 10 /\ col car' = col car /\
              direction car' = direction car /\ row car' < gridRows.
Proof.
  rewrite filter_In, in_map_iff. split.
  - intros [(car & <- & Hin) Hlt]. exists car.
    apply Z.ltb_lt in Hlt. cbn in *. repeat split; assumption.
  - intros (car & Hin & Hr & Hc & Hd & Hlt). split.
    + exists car. split; [| assumption].
      destruct car'. cbn in *. subst. reflexivity.
    + apply Z.ltb_lt. assumption.
Qed.

(** C4: on a committed move that meets the scroll-shift condition (updated
    score above 13, updated row below 5) the player lands ten rows further
    down, still inside the grid; the cars afterwards are exactly the old
    cars moved ten rows down, those with a shifted row of [gridRows] or
    more dropped, so every car kept has a row below [gridRows]. *)
Theorem handleKeyPress_scroll_shift (key : string) (w : State)
    (newRow newCol : Z) :
  isWaitingForInput (this w) = false ->
  isPlaying (this w) = true ->
  candidate key w = Some (newRow, newCol) ->
  newRow <> playerRow (this w) \/ newCol <> playerCol (this w) ->
  (if newRow <? playerRow (this w) then score (this w) + 1 else score (this w)) > 13 ->
  newRow < 5 ->
  let w' := handleKeyPress key w in
  playerRow (this w') = newRow + 10 /\
  playerRow (this w') < gridRows /\
  cars (this w') =
    filter (fun car => row car <? gridRows)
      (map (fun car => mkCar (row car + 10) (col car) (direction car))
         (cars (this w))) /\
  (forall car',
     In car' (cars (this w')) <->
     exists car, In car (cars (this w)) /\
       row car' = row car + 10 /\ col car' = col car /\
       direction car' = direction car /\ row car' < gridRows) /\
  (forall car, In car (cars (this w)) -> row car + 10 >= gridRows ->
     ~ In (mkCar (row car + 10) (col car) (direction car)) (cars (this w'))) /\
  Forall (fun car => row car < gridRows) (cars (this w')).
Proof.
  intros Hwait Hplay Hcand Hchg Hscore Hrow w'.
  subst w'. rewrite (handleKeyPress_committed key w newRow newCol) by assumption.
  cbv zeta.
  destruct (afterScore_board newRow newCol w) as (Hs & Hr & Hc & Hcars).
  rewrite Hs, Hr.
  replace ((if newRow <? playerRow (this w) then succ64 (score (this w))
            else score (this w)) >? 13) with true.
  2: { symmetry. apply Z.gtb_lt.
       destruct (newRow <? playerRow (this w)); [| lia].
       destruct (succ64_cases (score (this w)) ltac:(lia)) as [[_ ->] | [_ ?]];
         lia. }
  replace (newRow <? 5) with true by (symmetry; apply Z.ltb_lt; lia).
  cbn [andb].
  assert (Hthis :
    forall f : State -> State, (forall v, sameBoard v (f v)) ->
    let w2 := scrollShift (afterScore newRow newCol w) in
    playerRow (this (if checkCollisions w2 then f w2 else w2)) = newRow + 10 /\
    cars (this (if checkCollisions w2 then f w2 else w2)) =
      filter (fun car => row car <? gridRows) (map shifted (cars (this w)))).
  { intros f Hf w2. subst w2.
    destruct (checkCollisions (scrollShift (afterScore newRow newCol w))).
    - destruct (Hf (scrollShift (afterScore newRow newCol w)))
        as (_ & -> & _ & ->).
      rewrite scrollShift_this. cbn [playerRow cars]. rewrite Hr, Hcars.
      split; reflexivity.
    - rewrite scrollShift_this. cbn [playerRow cars]. rewrite Hr, Hcars.
      split; reflexivity. }
  destruct (Hthis gameOver gameOver_board) as [HpRow HpCars].
  rewrite HpRow, HpCars.
  split; [reflexivity |]. split; [unfold gridRows; lia |].
  split; [reflexivity |]. split; [apply in_shifted_cars |]. split.
  - intros car Hin Hge Hin'. apply filter_In in Hin' as [_ Hlt].
    apply Z.ltb_lt in Hlt. cbn in Hlt. lia.
  - apply Forall_forall. intros car Hin. apply filter_In in Hin as [_ Hlt].
    apply Z.ltb_lt in Hlt. exact Hlt.
Qed.

(** C5: the scroll shift preserves the collision check: with the player
    above row 5, some car sits on the player's cell after the shift exactly
    when one did before. *)
Theorem scrollShift_preserves_collision (w : State) :
  playerRow (this w) < 5 ->
  checkCollisions (scrollShift w) = checkCollisions w.
Proof.
  intros Hrow. unfold checkCollisions. rewrite scrollShift_this.
  cbn [cars playerRow playerCol].
  induction (cars (this w)) as [| car cs IH]; [reflexivity |].
  cbn [map filter].
  change (row (shifted car)) with (row car + 10).
  destruct (Z.ltb_spec (row car + 10) gridRows) as [Hlt | Hge].
  - cbn [existsb]. rewrite IH.
    change (row (shifted car)) with (row car + 10).
    change (col (shifted car)) with (col car).
    f_equal. f_equal.
    destruct (Z.eqb_spec (row car + 10) (playerRow (this w) + 10));
      destruct (Z.eqb_spec (row car) (playerRow (this w)));
      try reflexivity; lia.
  - rewrite IH. cbn [existsb].
    destruct (Z.eqb_spec (row car) (playerRow (this w))) as [Heq | Hne];
      [unfold gridRows in Hge; lia | reflexivity].
Qed.

(* ================================================================== *)
(** ** The shapes of a key press                                        *)
(* ================================================================== *)

(** The three ways [handleKeyPress] can go: resume from a reveal, do
    nothing, or commit a move. *)
Lemma handleKeyPress_cases (key : string) (w : State) :
  (isWaitingForInput (this w) = true /\ handleKeyPress key w = resumeGame w) \/
  (isWaitingForInput (this w) = false /\ handleKeyPress key w = w /\
   (isPlaying (this w) = false \/ candidate key w = None \/
    candidate key w = Some (playerRow (this w), playerCol (this w)))) \/
  (exists newRow newCol,
     isWaitingForInput (this w) = false /\
     isPlaying (this w) = true /\
     candidate key w = Some (newRow, newCol) /\
     (newRow <> playerRow (this w) \/ newCol <> playerCol (this w)) /\
     handleKeyPress key w =
       let w1 := afterScore newRow newCol w in
       let w2 := if (score (this w1) >? 13) && (playerRow (this w1) <? 5)
                 then scrollShift w1 else w1 in
       if checkCollisions w2 then gameOver w2 else w2).
Proof.
  destruct (isWaitingForInput (this w)) eqn:Hwait.
  { left. split; [reflexivity |]. unfold handleKeyPress. rewrite Hwait.
    reflexivity. }
  destruct (isPlaying (this w)) eqn:Hplay.
  2: { right; left. split; [reflexivity |]. split; [| left; reflexivity].
       unfold handleKeyPress. rewrite Hwait, Hplay. reflexivity. }
  destruct (candidate key w) as [[newRow newCol] |] eqn:Hcand.
  2: { right; left. split; [reflexivity |]. split; [| right; left; reflexivity].
       unfold handleKeyPress. rewrite Hwait, Hplay, Hcand. reflexivity. }
  destruct (Z.eq_dec newRow (playerRow (this w))) as [Hr | Hr];
    [destruct (Z.eq_dec newCol (playerCol (this w))) as [Hc | Hc] |].
  - right; left. split; [reflexivity |]. subst newRow newCol.
    split; [| right; right; reflexivity].
    unfold handleKeyPress. rewrite Hwait, Hplay, Hcand, !Z.eqb_refl.
    reflexivity.
  - right; right. exists newRow, newCol. repeat split; auto.
    apply handleKeyPress_committed; auto.
  - right; right. exists newRow, newCol. repeat split; auto.
    apply handleKeyPress_committed; auto.
Qed.

Lemma resumeGame_this (w : State) :
  this (resumeGame w) =
  mkGame true (score (this w)) (playerRow (this w)) (playerCol (this w))
    (cars (this (spawnCars (startGameLoop
       (set_isPlaying true (set_isWaitingForInput false w))))))
    (Some (nextHandle (env w))) (Some (S (nextHandle (env w))))
    (revealedComps (this w)) false.
Proof.
  unfold resumeGame. rewrite startCarSpawning_this. reflexivity.
Qed.

(* ================================================================== *)
(** ** Lane exclusivity                                                 *)
(* ================================================================== *)

Lemma NoDup_snoc {A : Type} (l : list A) (x : A) :
  NoDup l -> ~ In x l -> NoDup (l ++ [x]).
Proof.
  induction l as [| a l IH]; intros Hnd Hx; cbn.
  - constructor; [intros [] | constructor].
  - inversion Hnd as [| ? ? Ha Hl]; subst. constructor.
    + rewrite in_app_iff. intros [Hin | [-> | []]]; [auto |].
      apply Hx. left. reflexivity.
    + apply IH; [assumption |]. intros Hin. apply Hx. right. assumption.
Qed.

Lemma row_free_not_in (r : Z) (cs : list Car) :
  existsb (fun car => row car =? r) cs = false -> ~ In r (map row cs).
Proof.
  intros He Hin. apply in_map_iff in Hin as (car & Hr & Hin).
  assert (Ht : existsb (fun car => row car =? r) cs = true).
  { apply existsb_exists. exists car. split; [assumption |].
    apply Z.eqb_eq. assumption. }
  congruence.
Qed.

Lemma spawnAttempt_NoDup (w : State) :
  NoDup (carRows w) -> NoDup (carRows (spawnAttempt w)).
Proof.
  intros Hnd. unfold carRows, spawnAttempt, Math_random.
  cbn [fst snd this env cars random drawn].
  match goal with
  | |- context [if negb ?b then _ else _] => destruct b eqn:Hocc
  end; cbn [negb]; [exact Hnd |].
  cbn [set_cars this cars]. rewrite map_app. cbn [map row].
  apply NoDup_snoc; [exact Hnd |]. apply row_free_not_in. exact Hocc.
Qed.

Lemma repeatAttempts_NoDup (n : nat) (w : State) :
  NoDup (carRows w) -> NoDup (carRows (repeatAttempts n w)).
Proof.
  revert w. induction n as [| n IH]; intros w Hnd; [exact Hnd |].
  cbn [repeatAttempts]. apply IH, spawnAttempt_NoDup, Hnd.
Qed.

Lemma spawnCars_NoDup (w : State) :
  NoDup (carRows w) -> NoDup (carRows (spawnCars w)).
Proof.
  intros Hnd. unfold spawnCars, Math_random.
  cbn [fst snd]. apply repeatAttempts_NoDup. exact Hnd.
Qed.

Lemma moveCar_row (car : Car) : row (moveCar car) = row car.
Proof. unfold moveCar. destruct (direction car); reflexivity. Qed.

Lemma moveCar_rows (cs : list Car) : map row (map moveCar cs) = map row cs.
Proof.
  rewrite map_map. apply map_ext. intros car. apply moveCar_row.
Qed.

Lemma shifted_rows_NoDup (cs : list Car) :
  NoDup (map row cs) ->
  NoDup (map row (filter (fun car => row car <? gridRows) (map shifted cs))).
Proof.
  induction cs as [| car cs IH]; intros Hnd; [constructor |].
  inversion Hnd as [| r rs Hnotin Hrest]; subst.
  change (map shifted (car :: cs)) with (shifted car :: map shifted cs).
  change (filter (fun car0 => row car0 <? gridRows)
            (shifted car :: map shifted cs))
    with (if row car + 10 <? gridRows
          then shifted car ::
               filter (fun car0 => row car0 <? gridRows) (map shifted cs)
          else filter (fun car0 => row car0 <? gridRows) (map shifted cs)).
  destruct (row car + 10 <? gridRows); [| apply IH; assumption].
  change (NoDup (row car + 10 ::
            map row (filter (fun car0 => row car0 <? gridRows)
                       (map shifted cs)))).
  constructor; [| apply IH; assumption].
  intros Hin. apply in_map_iff in Hin as (car' & Hrow & Hin).
  apply filter_In in Hin as [Hin _].
  apply in_map_iff in Hin as (car0 & Hsh & Hin0).
  apply Hnotin. apply in_map_iff. exists car0. split; [| assumption].
  rewrite <- Hsh in Hrow. change (row car0 + 10 = row car + 10) in Hrow. lia.
Qed.

Lemma startCarSpawning_NoDup (w : State) :
  NoDup (carRows w) -> NoDup (carRows (startCarSpawning w)).
Proof.
  intros Hnd. unfold carRows. rewrite startCarSpawning_this.
  apply (spawnCars_NoDup w Hnd).
Qed.

Lemma startGame_NoDup (w : State) : NoDup (carRows (startGame w)).
Proof.
  unfold startGame. apply startCarSpawning_NoDup. constructor.
Qed.

Lemma resumeGame_NoDup (w : State) :
  NoDup (carRows w) -> NoDup (carRows (resumeGame w)).
Proof.
  intros Hnd. unfold carRows. rewrite resumeGame_this. cbn [cars].
  apply spawnCars_NoDup. exact Hnd.
Qed.

Lemma afterCollision_NoDup (w : State) :
  NoDup (carRows w) ->
  NoDup (carRows (if checkCollisions w then gameOver w else w)).
Proof.
  intros Hnd. destruct (checkCollisions w); [| exact Hnd].
  unfold carRows. destruct (gameOver_board w) as (_ & _ & _ & ->). exact Hnd.
Qed.

Lemma handleKeyPress_NoDup (key : string) (w : State) :
  NoDup (carRows w) -> NoDup (carRows (handleKeyPress key w)).
Proof.
  intros Hnd.
  destruct (handleKeyPress_cases key w)
    as [[_ ->] | [(_ & -> & _) | (newRow & newCol & _ & _ & _ & _ & ->)]].
  - apply resumeGame_NoDup, Hnd.
  - exact Hnd.
  - cbv zeta. apply afterCollision_NoDup.
    destruct (afterScore_board newRow newCol w) as (_ & _ & _ & Hcars).
    match goal with
    | |- context [if ?b then _ else _] => destruct b
    end.
    + unfold carRows. rewrite scrollShift_this. cbn [cars]. rewrite Hcars.
      apply shifted_rows_NoDup. exact Hnd.
    + unfold carRows. rewrite Hcars. exact Hnd.
Qed.

Lemma fire_NoDup (cb : Callback) (w : State) :
  NoDup (carRows w) -> NoDup (carRows (fire cb w)).
Proof.
  intros Hnd. destruct cb; cbn [fire].
  - unfold gameLoopTick. destruct (isPlaying (this w)); cbn [negb]; [| exact Hnd].
    apply afterCollision_NoDup. unfold carRows. cbn [set_cars this cars].
    rewrite moveCar_rows. exact Hnd.
  - unfold carSpawnerTick. destruct (isPlaying (this w)); [| exact Hnd].
    apply spawnCars_NoDup, Hnd.
Qed.

Lemma NoDup_count_le_1 (r : Z) (cs : list Car) :
  NoDup (map row cs) ->
  (List.length (filter (fun car => (row car =? r)%Z) cs) <= 1)%nat.
Proof.
  induction cs as [| car cs IH]; intros Hnd; cbn [filter List.length map] in *.
  - lia.
  - inversion Hnd as [| ? ? Hnotin Hrest]; subst.
    destruct (Z.eqb_spec (row car) r) as [Heq | Hne]; [| apply IH; assumption].
    cbn [List.length].
    assert (Hnone : filter (fun car0 => row car0 =? r) cs = []).
    { destruct (filter (fun car0 => row car0 =? r) cs) as [| car' l] eqn:Hf;
        [reflexivity |].
      assert (Hin : In car' (filter (fun car0 => row car0 =? r) cs))
        by (rewrite Hf; left; reflexivity).
      apply filter_In in Hin as [Hin Hr]. apply Z.eqb_eq in Hr.
      exfalso. apply Hnotin. apply in_map_iff. exists car'. split; [lia | assumption]. }
    rewrite Hnone. cbn. lia.
Qed.

(** C6: in every state reachable by run starts, key presses (with their
    scroll shifts and resumes) and timer ticks (car advance, spawning), the
    cars' rows are pairwise distinct: no row, in particular no lane row,
    holds more than one car. *)
Theorem lane_exclusivity (w : State) :
  reachable w ->
  NoDup (carRows w) /\
  forall r : Z,
    (List.length (filter (fun car => (row car =? r)%Z) (cars (this w))) <= 1)%nat.
Proof.
  intros Hreach.
  assert (Hnd : NoDup (carRows w)).
  { induction Hreach as [w0 | w w' _ IH Hstep].
    - apply startGame_NoDup.
    - destruct Hstep as [w | w w' Hrun].
      + apply startGame_NoDup.
      + destruct Hrun as [key w _ | h cb w _].
        * apply handleKeyPress_NoDup, IH.
        * apply fire_NoDup, IH. }
  split; [exact Hnd |].
  intros r. apply NoDup_count_le_1. exact Hnd.
Qed.

(* ================================================================== *)
(** ** Milestones                                                       *)
(* ================================================================== *)

Lemma includes_In (l : list nat) (index : nat) :
  includes l index = true <-> In index l.
Proof.
  unfold includes. rewrite existsb_exists. split.
  - intros (x & Hin & Heq). apply Nat.eqb_eq in Heq. subst. assumption.
  - intros Hin. exists index. split; [assumption | apply Nat.eqb_refl].
Qed.

Lemma revealAt_revealed (milestone : Z) (index : nat) (w : State) (i : nat) :
  In i (revealedComps (this (revealAt milestone index w))) <->
  In i (revealedComps (this w)) \/ (i = index /\ score (this w) = milestone).
Proof.
  unfold revealAt.
  destruct (Z.eqb_spec (score (this w)) milestone) as [Hs | Hs]; cbn [andb].
  - destruct (includes (revealedComps (this w)) index) eqn:Hinc; cbn [negb].
    + apply includes_In in Hinc. split; [auto |].
      intros [H | [-> _]]; assumption.
    + rewrite showRevealModal_this. cbn [revealedComps set_revealedComps
        set_isPlaying set_isWaitingForInput this].
      rewrite in_app_iff. cbn [In]. intuition auto.
  - intuition auto.
Qed.

Lemma revealAt_NoDup (milestone : Z) (index : nat) (w : State) :
  NoDup (revealedComps (this w)) ->
  NoDup (revealedComps (this (revealAt milestone index w))).
Proof.
  intros Hnd. unfold revealAt.
  destruct ((score (this w) =? milestone)); cbn [andb]; [| exact Hnd].
  destruct (includes (revealedComps (this w)) index) eqn:Hinc; cbn [negb];
    [exact Hnd |].
  rewrite showRevealModal_this. cbn [revealedComps set_revealedComps
    set_isPlaying set_isWaitingForInput this].
  apply NoDup_snoc; [exact Hnd |].
  intros Hin. apply includes_In in Hin. congruence.
Qed.

Lemma forEachFrom_revealed (ms : list Z) (index : nat) (w : State) (i : nat) :
  In i (revealedComps (this (forEachFrom revealAt index ms w))) <->
  In i (revealedComps (this w)) \/
  ((index <= i)%nat /\ nth_error ms (i - index) = Some (score (this w))).
Proof.
  revert index w. induction ms as [| m ms IH]; intros index w.
  - cbn [forEachFrom]. destruct (i - index)%nat; cbn [nth_error];
      intuition discriminate.
  - cbn [forEachFrom]. rewrite IH, revealAt_revealed.
    destruct (revealAt_board m index w) as (-> & _).
    split.
    + intros [[H | [-> Hs]] | [Hle Hn]].
      * left; assumption.
      * right. split; [lia |]. rewrite Nat.sub_diag. cbn. congruence.
      * right. split; [lia |].
        replace (i - index)%nat with (S (i - S index)) by lia. exact Hn.
    + intros [H | [Hle Hn]]; [left; left; assumption |].
      destruct (Nat.eq_dec i index) as [-> | Hne].
      * rewrite Nat.sub_diag in Hn. cbn in Hn. left; right.
        split; [reflexivity | congruence].
      * right. split; [lia |].
        replace (i - index)%nat with (S (i - S index)) in Hn by lia. exact Hn.
Qed.

Lemma forEachFrom_NoDup (ms : list Z) (index : nat) (w : State) :
  NoDup (revealedComps (this w)) ->
  NoDup (revealedComps (this (forEachFrom revealAt index ms w))).
Proof.
  revert index w. induction ms as [| m ms IH]; intros index w Hnd;
    [exact Hnd |].
  cbn [forEachFrom]. apply IH, revealAt_NoDup, Hnd.
Qed.

(** With every index whose threshold equals the score already revealed,
    the loop does nothing at all. *)
Lemma forEachFrom_idle (ms : list Z) (index : nat) (w : State) :
  (forall i, nth_error ms i = Some (score (this w)) ->
             In (index + i)%nat (revealedComps (this w))) ->
  forEachFrom revealAt index ms w = w.
Proof.
  revert index. induction ms as [| m ms IH]; intros index Hall;
    [reflexivity |].
  cbn [forEachFrom].
  assert (Hstay : revealAt m index w = w).
  { unfold revealAt.
    destruct (Z.eqb_spec (score (this w)) m) as [Hs | Hs]; cbn [andb];
      [| reflexivity].
    assert (Hin : In index (revealedComps (this w))).
    { specialize (Hall 0%nat). rewrite Nat.add_0_r in Hall.
      apply Hall. cbn. congruence. }
    apply includes_In in Hin. rewrite Hin. reflexivity. }
  rewrite Hstay. apply IH. intros i Hi.
  replace (S index + i)%nat with (index + S i)%nat by lia.
  apply Hall. exact Hi.
Qed.

(** A milestone that fires pauses the game for its reveal. *)
Lemma revealAt_fires (milestone : Z) (index : nat) (w : State) :
  score (this w) = milestone ->
  ~ In index (revealedComps (this w)) ->
  this (revealAt milestone index w) =
  mkGame false (score (this w)) (playerRow (this w)) (playerCol (this w))
    (cars (this w)) (gameInterval (this w)) (carInterval (this w))
    (revealedComps (this w) ++ [index]) true.
Proof.
  intros Hs Hnin. unfold revealAt.
  rewrite (proj2 (Z.eqb_eq _ _) Hs). cbn [andb].
  destruct (includes (revealedComps (this w)) index) eqn:Hinc.
  - apply includes_In in Hinc. contradiction.
  - cbn [negb]. rewrite showRevealModal_this. reflexivity.
Qed.

Lemma revealAt_skip (milestone : Z) (index : nat) (w : State) :
  score (this w) <> milestone -> revealAt milestone index w = w.
Proof.
  intros Hs. unfold revealAt.
  destruct (Z.eqb_spec (score (this w)) milestone); [contradiction |].
  reflexivity.
Qed.

Lemma milestone_index (i : nat) (s : Z) :
  nth_error milestones i = Some s ->
  (i = 0%nat /\ s = 10) \/ (i = 1%nat /\ s = 20) \/
  (i = 2%nat /\ s = 30) \/ (i = 3%nat /\ s = 40).
Proof.
  unfold milestones.
  destruct i as [| [| [| [| i]]]]; cbn; intros H; inversion H; auto.
  destruct i; discriminate.
Qed.

(** A milestone whose threshold the score has just reached, and which is
    not revealed yet, is appended and pauses the game for its reveal. *)
Lemma checkCompetitionReveals_fires (w : State) (i : nat) :
  nth_error milestones i = Some (score (this w)) ->
  ~ In i (revealedComps (this w)) ->
  this (checkCompetitionReveals w) =
  mkGame false (score (this w)) (playerRow (this w)) (playerCol (this w))
    (cars (this w)) (gameInterval (this w)) (carInterval (this w))
    (revealedComps (this w) ++ [i]) true.
Proof.
  intros Hn Hnin. unfold checkCompetitionReveals, milestones.
  cbn [forEachFrom].
  apply milestone_index in Hn
    as [[-> Hs] | [[-> Hs] | [[-> Hs] | [-> Hs]]]].
  - rewrite (revealAt_skip 20), (revealAt_skip 30), (revealAt_skip 40);
      try (destruct (revealAt_board 10 0 w) as (-> & _); lia).
    apply revealAt_fires; assumption.
  - rewrite (revealAt_skip 10 0 w) by lia.
    rewrite (revealAt_skip 30), (revealAt_skip 40);
      try (destruct (revealAt_board 20 1 w) as (-> & _); lia).
    apply revealAt_fires; assumption.
  - rewrite (revealAt_skip 10 0 w), (revealAt_skip 20 1 w) by lia.
    rewrite (revealAt_skip 40);
      try (destruct (revealAt_board 30 2 w) as (-> & _); lia).
    apply revealAt_fires; assumption.
  - rewrite (revealAt_skip 10 0 w), (revealAt_skip 20 1 w),
      (revealAt_skip 30 2 w) by lia.
    apply revealAt_fires; assumption.
Qed.

Lemma spawnCars_revealed (w : State) :
  revealedComps (this (spawnCars w)) = revealedComps (this w).
Proof. spawn_shape. reflexivity. Qed.

Lemma afterCollision_revealed (w : State) :
  revealedComps (this (if checkCollisions w then gameOver w else w)) =
  revealedComps (this w).
Proof.
  destruct (checkCollisions w); [| reflexivity].
  rewrite gameOver_this. reflexivity.
Qed.

Lemma afterScore_revealed_NoDup (newRow newCol : Z) (w : State) :
  NoDup (revealedComps (this w)) ->
  NoDup (revealedComps (this (afterScore newRow newCol w))).
Proof.
  intros Hnd. unfold afterScore. cbv zeta.
  destruct (newRow <? playerRow (this w)); [| exact Hnd].
  apply forEachFrom_NoDup. exact Hnd.
Qed.

Lemma handleKeyPress_revealed_NoDup (key : string) (w : State) :
  NoDup (revealedComps (this w)) ->
  NoDup (revealedComps (this (handleKeyPress key w))).
Proof.
  intros Hnd.
  destruct (handleKeyPress_cases key w)
    as [[_ ->] | [(_ & -> & _) | (newRow & newCol & _ & _ & _ & _ & ->)]].
  - rewrite resumeGame_this. exact Hnd.
  - exact Hnd.
  - cbv zeta. rewrite afterCollision_revealed.
    match goal with
    | |- context [if ?b then _ else _] => destruct b
    end.
    + rewrite scrollShift_this. cbn [revealedComps].
      apply afterScore_revealed_NoDup, Hnd.
    + apply afterScore_revealed_NoDup, Hnd.
Qed.

Lemma fire_revealed (cb : Callback) (w : State) :
  revealedComps (this (fire cb w)) = revealedComps (this w).
Proof.
  destruct cb; cbn [fire].
  - unfold gameLoopTick. destruct (isPlaying (this w)); cbn [negb];
      [| reflexivity].
    rewrite afterCollision_revealed. reflexivity.
  - unfold carSpawnerTick. destruct (isPlaying (this w)); [| reflexivity].
    apply spawnCars_revealed.
Qed.

Lemma startGame_this (w : State) :
  exists cs,
    this (startGame w) =
    mkGame true 0 14 4 cs (Some (nextHandle (env w)))
      (Some (S (nextHandle (env w)))) [] false.
Proof.
  unfold startGame. rewrite startCarSpawning_this. eexists. reflexivity.
Qed.

(** C7: the milestone check reveals index [i] exactly when the score
    equals the [i]-th threshold of [10, 20, 30, 40] (an index already
    revealed stays as it is); it keeps the revealed array free of
    duplicates; a threshold whose index is already revealed changes nothing
    and triggers no reveal, while an unrevealed one is appended once and
    pauses the game; and in every reachable state the revealed array holds
    no index twice. *)
Theorem milestones_fire_once :
  (forall (w : State) (i : nat),
     In i (revealedComps (this (checkCompetitionReveals w))) <->
     In i (revealedComps (this w)) \/
     nth_error milestones i = Some (score (this w))) /\
  (forall w : State,
     NoDup (revealedComps (this w)) ->
     NoDup (revealedComps (this (checkCompetitionReveals w)))) /\
  (forall w : State,
     (forall i, nth_error milestones i = Some (score (this w)) ->
                In i (revealedComps (this w))) ->
     checkCompetitionReveals w = w) /\
  (forall (w : State) (i : nat),
     nth_error milestones i = Some (score (this w)) ->
     ~ In i (revealedComps (this w)) ->
     revealedComps (this (checkCompetitionReveals w)) =
       revealedComps (this w) ++ [i] /\
     isWaitingForInput (this (checkCompetitionReveals w)) = true /\
     isPlaying (this (checkCompetitionReveals w)) = false) /\
  (forall w : State,
     reachable w -> NoDup (revealedComps (this w))).
Proof.
  split; [| split; [| split; [| split]]].
  - intros w i. unfold checkCompetitionReveals.
    rewrite forEachFrom_revealed, Nat.sub_0_r.
    split; (intros [H | H]; [left; exact H | right]);
      [apply H | split; [lia | exact H]].
  - intros w. apply forEachFrom_NoDup.
  - intros w Hall. apply forEachFrom_idle. exact Hall.
  - intros w i Hn Hnin.
    rewrite (checkCompetitionReveals_fires w i Hn Hnin).
    repeat split.
  - intros w Hreach. induction Hreach as [w0 | w w' _ IH Hstep].
    + destruct (startGame_this w0) as [cs ->]. constructor.
    + destruct Hstep as [w | w w' Hrun].
      * destruct (startGame_this w) as [cs ->]. constructor.
      * destruct Hrun as [key w _ | h cb w _].
        -- apply handleKeyPress_revealed_NoDup, IH.
        -- rewrite fire_revealed. exact IH.
Qed.

(* ================================================================== *)
(** ** Score                                                            *)
(* ================================================================== *)

Lemma afterCollision_score (w : State) :
  score (this (if checkCollisions w then gameOver w else w)) = score (this w).
Proof.
  destruct (checkCollisions w); [| reflexivity].
  rewrite gameOver_this. reflexivity.
Qed.

Lemma spawnCars_score (w : State) :
  score (this (spawnCars w)) = score (this w).
Proof. spawn_shape. reflexivity. Qed.

Lemma fire_score (cb : Callback) (w : State) :
  score (this (fire cb w)) = score (this w).
Proof.
  destruct cb; cbn [fire].
  - unfold gameLoopTick. destruct (isPlaying (this w)); cbn [negb];
      [| reflexivity].
    rewrite afterCollision_score. reflexivity.
  - unfold carSpawnerTick. destruct (isPlaying (this w)); [| reflexivity].
    apply spawnCars_score.
Qed.

(** The score after a key press: incremented on a committed upward move,
    the same otherwise. *)
Lemma handleKeyPress_score (key : string) (w : State) :
  (isWaitingForInput (this w) = false /\ isPlaying (this w) = true /\
   exists newRow newCol,
     candidate key w = Some (newRow, newCol) /\ newRow < playerRow (this w)) /\
  score (this (handleKeyPress key w)) = succ64 (score (this w))
  \/
  ~ (isWaitingForInput (this w) = false /\ isPlaying (this w) = true /\
     exists newRow newCol,
       candidate key w = Some (newRow, newCol) /\ newRow < playerRow (this w)) /\
  score (this (handleKeyPress key w)) = score (this w).
Proof.
  destruct (handleKeyPress_cases key w)
    as [[Hwait ->] | [(Hwait & -> & Hwhy) |
        (newRow & newCol & Hwait & Hplay & Hcand & Hchg & ->)]].
  - right. split; [| rewrite resumeGame_this; reflexivity].
    intros (Hw & _). congruence.
  - right. split; [| reflexivity].
    intros (_ & Hp & r & c & Hc & Hlt).
    destruct Hwhy as [Hn | [Hn | Hn]]; [congruence | congruence |].
    rewrite Hn in Hc. inversion Hc; subst. lia.
  - cbv zeta. rewrite afterCollision_score.
    destruct (afterScore_board newRow newCol w) as (Hs & _).
    assert (Hsc : score (this
              (if (score (this (afterScore newRow newCol w)) >? 13) &&
                  (playerRow (this (afterScore newRow newCol w)) <? 5)
               then scrollShift (afterScore newRow newCol w)
               else afterScore newRow newCol w)) =
            score (this (afterScore newRow newCol w))).
    { match goal with
      | |- context [if ?b then _ else _] => destruct b
      end; reflexivity. }
    rewrite Hsc, Hs.
    destruct (Z.ltb_spec newRow (playerRow (this w))) as [Hlt | Hge].
    + left. split; [| reflexivity].
      split; [assumption |]. split; [assumption |].
      exists newRow, newCol. split; assumption.
    + right. split; [| reflexivity].
      intros (_ & _ & r & c & Hc & Hlt).
      rewrite Hcand in Hc. inversion Hc; subst. lia.
Qed.




(* ================================================================== *)
(** ** Car advance                                                      *)
(* ================================================================== *)

Lemma gameLoopTick_cars (w : State) :
  isPlaying (this w) = true ->
  cars (this (gameLoopTick w)) = map moveCar (cars (this w)).
Proof.
  intros Hplay. unfold gameLoopTick. rewrite Hplay. cbn [negb].
  match goal with
  | |- context [if checkCollisions ?w' then _ else _] =>
      destruct (checkCollisions w');
        [destruct (gameOver_board w') as (_ & _ & _ & ->) |]
  end; reflexivity.
Qed.

Lemma moveCar_col (car : Car) :
  0 <= col car < gridCols ->
  col (moveCar car) =
    match direction car with
    | left => (col car - 1) mod gridCols
    | right => (col car + 1) mod gridCols
    end.
Proof.
  unfold moveCar, gridCols. intros Hc.
  destruct (direction car); cbn [col].
  - destruct (Z.ltb_spec (col car - 1) 0).
    + replace (col car) with 0 by lia. reflexivity.
    + symmetry. apply Z.mod_small. lia.
  - destruct (Z.geb_spec (col car + 1) 10).
    + replace (col car) with 9 by lia. reflexivity.
    + symmetry. apply Z.mod_small. lia.
Qed.

(** C9: one tick of the game loop, while playing, replaces every car in
    place: the row and the direction stay, and a car on a grid column moves
    one column in its direction modulo [gridCols]: from column 0 to
    [gridCols - 1] when moving left, from [gridCols - 1] to 0 when moving
    right, and to the column minus one (left) or plus one (right)
    otherwise. *)
Theorem gameLoopTick_advances_cars (w : State) :
  isPlaying (this w) = true ->
  List.length (cars (this (gameLoopTick w))) = List.length (cars (this w)) /\
  forall (n : nat) (car : Car),
    nth_error (cars (this w)) n = Some car ->
    exists car',
      nth_error (cars (this (gameLoopTick w))) n = Some car' /\
      row car' = row car /\
      direction car' = direction car /\
      (0 <= col car < gridCols ->
       col car' =
         match direction car with
         | left => (col car - 1) mod gridCols
         | right => (col car + 1) mod gridCols
         end /\
       (direction car = left -> col car = 0 -> col car' = gridCols - 1) /\
       (direction car = right -> col car = gridCols - 1 -> col car' = 0) /\
       (direction car = left -> col car <> 0 -> col car' = col car - 1) /\
       (direction car = right -> col car <> gridCols - 1 ->
        col car' = col car + 1)).
Proof.
  intros Hplay. rewrite (gameLoopTick_cars w Hplay).
  split; [apply length_map |].
  intros n car Hn. exists (moveCar car).
  split; [rewrite nth_error_map, Hn; reflexivity |].
  split; [apply moveCar_row |].
  split; [unfold moveCar; destruct (direction car); reflexivity |].
  intros Hc. split; [apply moveCar_col; exact Hc |].
  unfold moveCar, gridCols in *.
  repeat split; intros Hd Hcol; rewrite Hd; cbn [col].
  - rewrite Hcol. reflexivity.
  - rewrite Hcol. reflexivity.
  - destruct (Z.ltb_spec (col car - 1) 0); [lia | reflexivity].
  - destruct (Z.geb_spec (col car + 1) 10); [lia | reflexivity].
Qed.

(* ================================================================== *)
(** ** Blocked moves                                                    *)
(* ================================================================== *)



(* ================================================================== *)
(** ** Everything stays on the grid                                     *)
(* ================================================================== *)

Lemma candidate_onGrid (key : string) (w : State) (newRow newCol : Z) :
  candidate key w = Some (newRow, newCol) ->
  0 <= playerRow (this w) < gridRows ->
  0 <= playerCol (this w) < gridCols ->
  0 <= newRow < gridRows /\ 0 <= newCol < gridCols.
Proof.
  unfold candidate, gridRows, gridCols. intros Hcand Hr Hc.
  destruct (String.eqb key "ArrowUp"); [inversion Hcand; lia |].
  destruct (String.eqb key "ArrowDown"); [inversion Hcand; lia |].
  destruct (String.eqb key "ArrowLeft"); [inversion Hcand; lia |].
  destruct (String.eqb key "ArrowRight"); [inversion Hcand; lia |].
  discriminate.
Qed.

Lemma spawnAttempt_cols (w : State) :
  Forall (fun car => 0 <= col car < gridCols) (cars (this w)) ->
  Forall (fun car => 0 <= col car < gridCols) (cars (this (spawnAttempt w))).
Proof.
  intros Hall. unfold spawnAttempt, Math_random.
  cbn [fst snd this env cars random drawn].
  match goal with
  | |- context [if negb ?b then _ else _] => destruct b
  end; cbn [negb]; [exact Hall |].
  cbn [set_cars this cars]. apply Forall_app. split; [exact Hall |].
  constructor; [| constructor]. cbn [col]. unfold gridCols.
  match goal with
  | |- context [if ?b then left else right] => destruct b
  end; lia.
Qed.

Lemma repeatAttempts_cols (n : nat) (w : State) :
  Forall (fun car => 0 <= col car < gridCols) (cars (this w)) ->
  Forall (fun car => 0 <= col car < gridCols)
    (cars (this (repeatAttempts n w))).
Proof.
  revert w. induction n as [| n IH]; intros w Hall; [exact Hall |].
  cbn [repeatAttempts]. apply IH, spawnAttempt_cols, Hall.
Qed.

Lemma spawnCars_cols (w : State) :
  Forall (fun car => 0 <= col car < gridCols) (cars (this w)) ->
  Forall (fun car => 0 <= col car < gridCols) (cars (this (spawnCars w))).
Proof.
  intros Hall. unfold spawnCars, Math_random. cbn [fst snd].
  apply repeatAttempts_cols. exact Hall.
Qed.

Lemma spawnCars_player (w : State) :
  playerRow (this (spawnCars w)) = playerRow (this w) /\
  playerCol (this (spawnCars w)) = playerCol (this w).
Proof. spawn_shape. split; reflexivity. Qed.

Lemma spawnCars_onGrid (w : State) : onGrid w -> onGrid (spawnCars w).
Proof.
  intros [Hp Hc]. split; [| apply spawnCars_cols, Hc].
  destruct (spawnCars_player w) as [-> ->]. exact Hp.
Qed.

Lemma startCarSpawning_onGrid (w : State) :
  onGrid w -> onGrid (startCarSpawning w).
Proof.
  intros Hg. apply spawnCars_onGrid in Hg. destruct Hg as [Hp Hc].
  unfold onGrid. rewrite startCarSpawning_this. cbn [playerRow playerCol cars].
  destruct (spawnCars_player w) as [Hr Hcol]. rewrite Hr, Hcol in Hp.
  split; [exact Hp | exact Hc].
Qed.

Lemma startGame_onGrid (w : State) : onGrid (startGame w).
Proof.
  unfold startGame. apply startCarSpawning_onGrid.
  split; [cbn; unfold gridRows, gridCols; lia | constructor].
Qed.

Lemma resumeGame_onGrid (w : State) : onGrid w -> onGrid (resumeGame w).
Proof.
  intros Hg. unfold resumeGame. apply startCarSpawning_onGrid. exact Hg.
Qed.

Lemma afterCollision_onGrid (w : State) :
  onGrid w -> onGrid (if checkCollisions w then gameOver w else w).
Proof.
  intros Hg. destruct (checkCollisions w); [| exact Hg].
  unfold onGrid. destruct (gameOver_board w) as (_ & -> & -> & ->). exact Hg.
Qed.

Lemma moveCar_onGrid (car : Car) :
  0 <= col car < gridCols -> 0 <= col (moveCar car) < gridCols.
Proof.
  intros Hc. rewrite (moveCar_col car Hc).
  destruct (direction car); apply Z.mod_pos_bound; reflexivity.
Qed.

Lemma handleKeyPress_onGrid (key : string) (w : State) :
  onGrid w -> onGrid (handleKeyPress key w).
Proof.
  intros Hg.
  destruct (handleKeyPress_cases key w)
    as [[_ ->] | [(_ & -> & _) | (newRow & newCol & _ & _ & Hcand & _ & ->)]].
  - apply resumeGame_onGrid, Hg.
  - exact Hg.
  - cbv zeta. apply afterCollision_onGrid.
    destruct Hg as [[Hr Hc] Hcars].
    destruct (candidate_onGrid key w newRow newCol Hcand Hr Hc) as [Hnr Hnc].
    destruct (afterScore_board newRow newCol w) as (_ & Hrow & Hcol & Hcs).
    rewrite Hrow.
    destruct ((score (this (afterScore newRow newCol w)) >? 13)); cbn [andb].
    + destruct (Z.ltb_spec newRow 5) as [Hlt | Hge].
      * unfold onGrid. rewrite scrollShift_this.
        cbn [playerRow playerCol cars]. rewrite Hrow, Hcol, Hcs.
        split; [unfold gridRows in *; lia |].
        apply Forall_forall. intros car' Hin.
        apply in_shifted_cars in Hin as (car & Hin & _ & -> & _).
        rewrite Forall_forall in Hcars. apply Hcars, Hin.
      * unfold onGrid. rewrite Hrow, Hcol, Hcs. auto.
    + unfold onGrid. rewrite Hrow, Hcol, Hcs. auto.
Qed.

Lemma fire_onGrid (cb : Callback) (w : State) :
  onGrid w -> onGrid (fire cb w).
Proof.
  intros Hg. destruct cb; cbn [fire].
  - unfold gameLoopTick. destruct (isPlaying (this w)); cbn [negb];
      [| exact Hg].
    apply afterCollision_onGrid. destruct Hg as [Hp Hcars].
    split; [exact Hp |]. cbn [set_cars this cars].
    apply Forall_map. revert Hcars. apply Forall_impl.
    intros car. apply moveCar_onGrid.
  - unfold carSpawnerTick. destruct (isPlaying (this w)); [| exact Hg].
    apply spawnCars_onGrid, Hg.
Qed.

(** In every reachable state the player is on a grid cell and all cars are
    on grid columns: the range the column and clamping equations of the
    advance tick and of the move candidate are stated for. *)
Lemma reachable_onGrid (w : State) : reachable w -> onGrid w.
Proof.
  intros Hreach. induction Hreach as [w0 | w w' _ IH Hstep].
  - apply startGame_onGrid.
  - destruct Hstep as [w | w w' Hrun].
    + apply startGame_onGrid.
    + destruct Hrun as [key w _ | h cb w _].
      * apply handleKeyPress_onGrid, IH.
      * apply fire_onGrid, IH.
Qed.

(* ================================================================== *)
(** ** Concrete runs                                                    *)
(* ================================================================== *)

(** Ten moves up on an empty road: score 10, milestone 0 revealed, the game
    paused for the reveal with both timers cleared; the next key resumes it
    with the score kept. *)
Example ten_moves_up :
  this (pressKey "ArrowUp" 10 emptyRoad) =
    mkGame false 10 4 4 [] (Some 1%nat) (Some 2%nat) [0%nat] true /\
  intervals (env (pressKey "ArrowUp" 10 emptyRoad)) = [] /\
  score (this (handleKeyPress "x" (pressKey "ArrowUp" 10 emptyRoad))) = 10 /\
  isPlaying (this (handleKeyPress "x" (pressKey "ArrowUp" 10 emptyRoad))) = true.
Proof. vm_compute. repeat split. Qed.

(** Moving onto a car ends the run and counts one playthrough. *)
Example move_onto_car :
  isPlaying (this (handleKeyPress "ArrowLeft"
    (mkState (mkGame true 7 7 5 [mkCar 7 4 right] (Some 1%nat) (Some 2%nat)
                [] false) quietBrowser))) = false /\
  playthroughs (env (handleKeyPress "ArrowLeft"
    (mkState (mkGame true 7 7 5 [mkCar 7 4 right] (Some 1%nat) (Some 2%nat)
                [] false) quietBrowser))) = Some 1.
Proof. vm_compute. split; reflexivity. Qed.

Lemma handleKeyPress_scroll_shift_witness :
  isWaitingForInput (this nearTop) = false /\
  isPlaying (this nearTop) = true /\
  candidate "ArrowUp" nearTop = Some (4, 4) /\
  playerRow (this (handleKeyPress "ArrowUp" nearTop)) = 14 /\
  cars (this (handleKeyPress "ArrowUp" nearTop)) = [mkCar 13 2 left].
Proof.
  split; [reflexivity |]. split; [reflexivity |]. split; [reflexivity |].
  destruct (handleKeyPress_scroll_shift "ArrowUp" nearTop 4 4
              eq_refl eq_refl eq_refl
              (or_introl (fun H : 4 = playerRow (this nearTop) =>
                            Z.lt_irrefl 4 (eq_ind_r (fun z => 4 < z)
                              (eq_refl : (4 ?= 5) = Lt) H)))
              (eq_refl : (14 ?= 13) = Gt)
              (eq_refl : (4 ?= 5) = Lt))
    as (Hrow & _ & Hcars & _).
  split; [exact Hrow | exact Hcars].
Defined.

Lemma scrollShift_preserves_collision_witness :
  playerRow (this onCar) < 5 /\
  checkCollisions (scrollShift onCar) = true /\
  checkCollisions onCar = true.
Proof.
  split; [reflexivity |].
  split; [| reflexivity].
  rewrite (scrollShift_preserves_collision onCar (eq_refl : (4 ?= 5) = Lt)).
  reflexivity.
Defined.

Lemma lane_exclusivity_witness :
  reachable (fire CarSpawner (handleKeyPress "ArrowUp" (startGame nearTop))) /\
  NoDup (carRows (fire CarSpawner (handleKeyPress "ArrowUp" (startGame nearTop)))).
Proof.
  assert (Hreach :
    reachable (fire CarSpawner (handleKeyPress "ArrowUp" (startGame nearTop)))).
  { apply (reach_step (handleKeyPress "ArrowUp" (startGame nearTop))).
    - apply (reach_step (startGame nearTop)); [exact (reach_start nearTop) |].
      apply step_run.
      apply (step_key "ArrowUp" (startGame nearTop)).
      vm_compute. reflexivity.
    - apply step_run.
      apply (step_timer 4%nat CarSpawner
               (handleKeyPress "ArrowUp" (startGame nearTop))).
      vm_compute. auto. }
  split; [exact Hreach |].
  exact (proj1 (lane_exclusivity _ Hreach)).
Defined.

Lemma milestones_fire_once_witness :
  revealedComps (this (checkCompetitionReveals
                         (set_score 20 (set_revealedComps [0%nat] emptyRoad)))) =
    [0%nat; 1%nat] /\
  checkCompetitionReveals
    (set_score 20 (set_revealedComps [0%nat; 1%nat] emptyRoad)) =
    set_score 20 (set_revealedComps [0%nat; 1%nat] emptyRoad).
Proof.
  destruct milestones_fire_once as (_ & _ & Hidle & Hfire & _).
  split.
  - refine (proj1 (Hfire (set_score 20 (set_revealedComps [0%nat] emptyRoad))
                     1%nat eq_refl _)).
    cbn. intros [H | []]. discriminate H.
  - apply Hidle. intros i Hi.
    destruct i as [| [| [| [| i]]]]; cbn in Hi; try discriminate Hi.
    + cbn. auto.
    + destruct i; discriminate Hi.
Defined.


Lemma gameLoopTick_advances_cars_witness :
  isPlaying (this nearTop) = true /\
  exists car',
    nth_error (cars (this (gameLoopTick nearTop))) 2 = Some car' /\
    row car' = 12 /\ col car' = 8.
Proof.
  split; [reflexivity |].
  destruct (gameLoopTick_advances_cars nearTop eq_refl) as [_ Hall].
  destruct (Hall 2%nat (mkCar 12 9 left) eq_refl)
    as (car' & Hn & Hrow & _ & Hcol).
  exists car'. split; [exact Hn |]. split; [exact Hrow |].
  destruct (Hcol (conj (fun H : (0 ?= 9) = Gt => eq_ind Lt
                          (fun c => match c with Gt => False | _ => True end)
                          I Gt H)
                       (eq_refl : (9 ?= 10) = Lt))) as (-> & _).
  reflexivity.
Defined.


(* ================================================================== *)
(** ** What one call of [spawnCars] does                                *)
(* ================================================================== *)

(** Rounding leaves a number alone whose dropped bits are all zero. *)
Lemma round_step_exact (n sh : Z) :
  1 <= sh -> n mod 2 ^ sh = 0 ->
  Z.shiftl
    (if (2 ^ (sh - 1) <? n mod 2 ^ sh) ||
        ((n mod 2 ^ sh =? 2 ^ (sh - 1)) && Z.odd (Z.shiftr n sh))
     then Z.shiftr n sh + 1 else Z.shiftr n sh) sh = n.
Proof.
  intros Hsh Hmod. rewrite Hmod.
  assert (Hhalf : 0 < 2 ^ (sh - 1)) by (apply Z.pow_pos_nonneg; lia).
  destruct (Z.ltb_spec (2 ^ (sh - 1)) 0); [lia |].
  destruct (Z.eqb_spec 0 (2 ^ (sh - 1))); [lia |].
  cbn [orb andb].
  rewrite Z.shiftl_mul_pow2, Z.shiftr_div_pow2 by lia.
  assert (Hp : 0 < 2 ^ sh) by (apply Z.pow_pos_nonneg; lia).
  pose proof (Z.div_mod n (2 ^ sh) ltac:(lia)) as Hdm.
  rewrite Hmod in Hdm. lia.
Qed.

(** Multiplying a double below 1 by 4 is exact. *)
Lemma round53_times4 (m : Z) : 0 <= m < 2 ^ 53 -> round53 (4 * m) = 4 * m.
Proof.
  intros [Hm0 Hm1]. unfold round53.
  destruct (Z.leb_spec (Z.log2 (4 * m) + 1) 53) as [Hb | Hb]; [reflexivity |].
  assert (Hpos : 0 < 4 * m).
  { destruct (Z.eq_dec m 0) as [-> | ]; [simpl in Hb; lia | lia]. }
  assert (Hlog : Z.log2 (4 * m) < 55) by (apply Z.log2_lt_pow2; lia).
  cbv zeta. apply round_step_exact; [lia |].
  assert (Hsh : Z.log2 (4 * m) + 1 - 53 = 1 \/ Z.log2 (4 * m) + 1 - 53 = 2)
    by lia.
  destruct Hsh as [-> | ->]; apply Z.mod_divide; try lia.
  - exists (2 * m). lia.
  - exists m. lia.
Qed.

(** [Math.floor(Math.random() * 4)] lies in [[0, 3]]. *)
Lemma floor_times_4_range (d : double01) :
  valid_draw d -> 0 <= floor_times 4 d <= 3.
Proof.
  intros [[Hm0 Hm1] [Hs0 Hs1]]. unfold floor_times.
  rewrite round53_times4 by lia.
  assert (Hp : 2 ^ 53 <= 2 ^ scale d) by (apply Z.pow_le_mono_r; lia).
  split.
  - apply Z.div_pos; lia.
  - enough (4 * mant d / 2 ^ scale d < 4) by lia.
    apply Z.div_lt_upper_bound; lia.
Qed.

Lemma spawnAttempt_env (w : State) :
  env (spawnAttempt w) = env (consume 2 w).
Proof. rewrite (spawnAttempt_shape w). reflexivity. Qed.

Lemma spawnAttempt_drawsValid (w : State) :
  drawsValid w -> drawsValid (spawnAttempt w).
Proof.
  unfold drawsValid. rewrite spawnAttempt_env. intros Hv n. apply Hv.
Qed.

(** One attempt appends at most one car, a fresh one. *)
Lemma spawnAttempt_appends (w : State) :
  drawsValid w ->
  exists added,
    cars (this (spawnAttempt w)) = cars (this w) ++ added /\
    (List.length added <= 1)%nat /\ Forall freshCar added.
Proof.
  intros Hv. pose proof (floor_times_12_range _ (Hv (drawn (env w)))) as Hr.
  unfold spawnAttempt, Math_random.
  cbn [fst snd this env cars random drawn].
  match goal with
  | |- context [if negb ?b then _ else _] => destruct b
  end; cbn [negb].
  - exists []. rewrite app_nil_r. repeat split; [cbn; lia | constructor].
  - eexists. split; [reflexivity |]. split; [cbn; lia |].
    constructor; [| constructor]. unfold freshCar. cbn [row col direction].
    split; [lia |].
    match goal with
    | |- context [if ?b then left else right] => destruct b
    end; reflexivity.
Qed.

Lemma repeatAttempts_appends (n : nat) (w : State) :
  drawsValid w ->
  exists added,
    cars (this (repeatAttempts n w)) = cars (this w) ++ added /\
    (List.length added <= n)%nat /\ Forall freshCar added.
Proof.
  revert w. induction n as [| n IH]; intros w Hv.
  - exists []. rewrite app_nil_r. repeat split; [cbn; lia | constructor].
  - cbn [repeatAttempts].
    destruct (spawnAttempt_appends w Hv) as (a1 & Hc1 & Hl1 & Hf1).
    destruct (IH (spawnAttempt w) (spawnAttempt_drawsValid w Hv))
      as (a2 & Hc2 & Hl2 & Hf2).
    exists (a1 ++ a2). rewrite Hc2, Hc1, app_assoc.
    split; [reflexivity |]. split; [rewrite length_app; lia |].
    apply Forall_app. split; assumption.
Qed.

Lemma repeatAttempts_env (n : nat) (w : State) :
  env (repeatAttempts n w) = env (consume (2 * n) w).
Proof. rewrite (repeatAttempts_shape n w). reflexivity. Qed.

(** X1: with [Math.random()] returning doubles in [[0, 1)], one call of
    [spawnCars] makes between 2 and 5 attempts, takes one random number
    plus two per attempt, keeps the cars it finds in place and order, and
    appends at most one car per attempt, each on a row from 1 to 12 and at
    the edge column its direction starts from. *)
Theorem spawnCars_appends_fresh_cars (w : State) :
  drawsValid w ->
  exists (attempts : nat) (added : list Car),
    (2 <= attempts <= 5)%nat /\
    drawn (env (spawnCars w)) = (1 + 2 * attempts + drawn (env w))%nat /\
    cars (this (spawnCars w)) = cars (this w) ++ added /\
    (List.length added <= attempts)%nat /\
    Forall freshCar added.
Proof.
  intros Hv.
  pose proof (floor_times_4_range _ (Hv (drawn (env w)))) as Hn.
  unfold spawnCars, Math_random. cbn [fst snd].
  set (attempts := Z.to_nat (floor_times 4 (random (env w) (drawn (env w))) + 2)).
  set (w1 := mkState (this w)
               (mkBrowser (playthroughs (env w)) (intervals (env w))
                  (nextHandle (env w)) (keydown (env w)) (random (env w))
                  (S (drawn (env w))))).
  assert (Hv1 : drawsValid w1) by exact Hv.
  destruct (repeatAttempts_appends attempts w1 Hv1) as (added & Hc & Hl & Hf).
  exists attempts, added.
  split; [unfold attempts; lia |].
  split; [rewrite repeatAttempts_env; cbn; lia |].
  split; [exact Hc |]. split; [exact Hl | exact Hf].
Qed.

Lemma quietBrowser_drawsValid (g : Game) : drawsValid (mkState g quietBrowser).
Proof.
  intros n. unfold valid_draw. cbn [env quietBrowser random mant scale]. lia.
Qed.

Lemma spawnCars_appends_fresh_cars_witness :
  drawsValid nearTop /\
  exists (attempts : nat) (added : list Car),
    (2 <= attempts <= 5)%nat /\
    drawn (env (spawnCars nearTop)) =
      (1 + 2 * attempts + drawn (env nearTop))%nat /\
    cars (this (spawnCars nearTop)) = cars (this nearTop) ++ added /\
    (List.length added <= attempts)%nat /\
    Forall freshCar added.
Proof.
  split; [exact (quietBrowser_drawsValid (this nearTop)) |].
  exact (spawnCars_appends_fresh_cars nearTop
           (quietBrowser_drawsValid (this nearTop))).
Defined.

Example spawnCars_nearTop :
  cars (this (spawnCars nearTop)) =
    [mkCar 3 2 left; mkCar 7 0 right; mkCar 12 9 left; mkCar 10 9 left] /\
  drawn (env (spawnCars nearTop)) = 11%nat.
Proof. vm_compute. split; reflexivity. Qed.

Lemma carSpawnerTick_frame (w : State) :
  exists (cs : list Car) (k : nat),
    this (carSpawnerTick w) =
      mkGame (isPlaying (this w)) (score (this w)) (playerRow (this w))
        (playerCol (this w)) cs (gameInterval (this w)) (carInterval (this w))
        (revealedComps (this w)) (isWaitingForInput (this w)) /\
    env (carSpawnerTick w) =
      mkBrowser (playthroughs (env w)) (intervals (env w))
        (nextHandle (env w)) (keydown (env w)) (random (env w))
        (k + drawn (env w)).
Proof.
  unfold carSpawnerTick.
  destruct (isPlaying (this w)) eqn:Hplay.
  - destruct (spawnCars_shape w) as [k Hk]. rewrite Hk.
    exists (cars (this (spawnCars w))), k.
    cbn [this env set_cars consume isPlaying score playerRow playerCol
         gameInterval carInterval revealedComps isWaitingForInput
         playthroughs intervals nextHandle keydown random drawn].
    rewrite Hplay. split; reflexivity.
  - exists (cars (this w)), 0%nat.
    destruct w as [[] []]. cbn in Hplay. subst. split; reflexivity.
Qed.

(** X2: the car-spawner callback touches nothing but the cars array and
    the position in the random numbers: it never ends or pauses the run,
    never moves the player and never changes score, reveals, timers, key
    listener or stored play count, whether or not a car it adds sits on
    the player's cell; while not playing it does nothing at all. *)
Theorem carSpawnerTick_only_adds_cars (w : State) :
  (isPlaying (this w) = false -> carSpawnerTick w = w) /\
  exists (cs : list Car) (k : nat),
    this (carSpawnerTick w) =
      mkGame (isPlaying (this w)) (score (this w)) (playerRow (this w))
        (playerCol (this w)) cs (gameInterval (this w)) (carInterval (this w))
        (revealedComps (this w)) (isWaitingForInput (this w)) /\
    env (carSpawnerTick w) =
      mkBrowser (playthroughs (env w)) (intervals (env w))
        (nextHandle (env w)) (keydown (env w)) (random (env w))
        (k + drawn (env w)).
Proof.
  split; [| apply carSpawnerTick_frame].
  unfold carSpawnerTick. intros ->. reflexivity.
Qed.

(** A car spawned on the player's cell: the run goes on. *)
Example spawn_on_player :
  checkCollisions
    (carSpawnerTick
       (mkState (mkGame true 3 10 9 [] (Some 1%nat) (Some 2%nat) [] false)
          quietBrowser)) = true /\
  isPlaying (this
    (carSpawnerTick
       (mkState (mkGame true 3 10 9 [] (Some 1%nat) (Some 2%nat) [] false)
          quietBrowser))) = true.
Proof. vm_compute. split; reflexivity. Qed.

(* ================================================================== *)
(** ** Progress of a run                                                *)
(* ================================================================== *)

Lemma handleKeyPress_commit_cases (key : string) (w : State) :
  (isWaitingForInput (this w) = true /\ handleKeyPress key w = resumeGame w) \/
  (isWaitingForInput (this w) = false /\ handleKeyPress key w = w /\
   (isPlaying (this w) = false \/ candidate key w = None \/
    candidate key w = Some (playerRow (this w), playerCol (this w)))) \/
  (exists newRow newCol,
     isWaitingForInput (this w) = false /\
     isPlaying (this w) = true /\
     candidate key w = Some (newRow, newCol) /\
     (newRow <> playerRow (this w) \/ newCol <> playerCol (this w)) /\
     handleKeyPress key w = commitMove newRow newCol w).
Proof. exact (handleKeyPress_cases key w). Qed.

Lemma commitMove_board (newRow newCol : Z) (w : State) :
  score (this (commitMove newRow newCol w)) =
    score (this (afterScore newRow newCol w)) /\
  playerRow (this (commitMove newRow newCol w)) =
    (if (score (this (afterScore newRow newCol w)) >? 13) && (newRow <? 5)
     then newRow + 10 else newRow) /\
  playerCol (this (commitMove newRow newCol w)) = newCol /\
  revealedComps (this (commitMove newRow newCol w)) =
    revealedComps (this (afterScore newRow newCol w)).
Proof.
  unfold commitMove. cbv zeta.
  destruct (afterScore_board newRow newCol w) as (_ & Hrow & Hcol & _).
  rewrite Hrow.
  set (w1 := afterScore newRow newCol w) in *.
  set (w2 := if (score (this w1) >? 13) && (newRow <? 5)
             then scrollShift w1 else w1).
  assert (H2 : score (this w2) = score (this w1) /\
               playerRow (this w2) =
                 (if (score (this w1) >? 13) && (newRow <? 5)
                  then newRow + 10 else newRow) /\
               playerCol (this w2) = newCol /\
               revealedComps (this w2) = revealedComps (this w1)).
  { subst w2. destruct ((score (this w1) >? 13) && (newRow <? 5)).
    - rewrite scrollShift_this. cbn. rewrite Hrow, Hcol. repeat split.
    - rewrite Hrow, Hcol. repeat split. }
  destruct H2 as (Hs2 & Hr2 & Hc2 & Hv2).
  destruct (checkCollisions w2).
  - rewrite gameOver_this. cbn. rewrite Hs2, Hr2, Hc2, Hv2. repeat split.
  - rewrite Hs2, Hr2, Hc2, Hv2. repeat split.
Qed.

Lemma candidate_row (key : string) (w : State) (newRow newCol : Z) :
  candidate key w = Some (newRow, newCol) ->
  newRow = Z.max 0 (playerRow (this w) - 1) \/
  newRow = Z.min 14 (playerRow (this w) + 1) \/
  newRow = playerRow (this w).
Proof.
  unfold candidate, gridRows. intros Hcand.
  destruct (String.eqb key "ArrowUp"); [inversion Hcand; auto |].
  destruct (String.eqb key "ArrowDown"); [inversion Hcand; auto |].
  destruct (String.eqb key "ArrowLeft"); [inversion Hcand; auto |].
  destruct (String.eqb key "ArrowRight"); [inversion Hcand; auto |].
  discriminate.
Qed.

Lemma checkCompetitionReveals_revealed (w : State) (i : nat) :
  In i (revealedComps (this (checkCompetitionReveals w))) <->
  In i (revealedComps (this w)) \/
  nth_error milestones i = Some (score (this w)).
Proof.
  unfold checkCompetitionReveals.
  rewrite forEachFrom_revealed, Nat.sub_0_r.
  split; (intros [H | H]; [left; exact H | right]);
    [apply H | split; [lia | exact H]].
Qed.

Lemma afterScore_revealed (newRow newCol : Z) (w : State) (i : nat) :
  In i (revealedComps (this (afterScore newRow newCol w))) <->
  In i (revealedComps (this w)) \/
  (newRow < playerRow (this w) /\
   nth_error milestones i = Some (succ64 (score (this w)))).
Proof.
  unfold afterScore. cbv zeta.
  destruct (Z.ltb_spec newRow (playerRow (this w))) as [Hlt | Hge].
  - rewrite checkCompetitionReveals_revealed. cbn. intuition auto.
  - cbn. intuition lia.
Qed.

Lemma commitMove_runInv (key : string) (newRow newCol : Z) (w : State) :
  candidate key w = Some (newRow, newCol) ->
  runInv w -> runInv (commitMove newRow newCol w).
Proof.
  intros Hcand (Hs & Hlow & Hhigh & Hrev).
  unfold runInv.
  destruct (commitMove_board newRow newCol w) as (-> & -> & _ & ->).
  destruct (afterScore_board newRow newCol w) as (-> & _).
  apply candidate_row in Hcand.
  assert (Hsucc : (score (this w) < 2 ^ 53 /\
                   succ64 (score (this w)) = score (this w) + 1) \/
                  (2 ^ 53 <= score (this w) /\
                   2 ^ 53 <= succ64 (score (this w))))
    by (apply succ64_cases; exact Hs).
  assert (Hnum :
    let s1 := if newRow <? playerRow (this w)
              then succ64 (score (this w)) else score (this w) in
    let r1 := if (s1 >? 13) && (newRow <? 5) then newRow + 10 else newRow in
    0 <= s1 /\ (s1 <= 13 -> 14 <= r1 + s1) /\ (13 < s1 -> 5 <= r1)).
  { cbv zeta.
    destruct (Z.ltb_spec newRow (playerRow (this w)));
      match goal with
      | |- context [?a >? 13] => destruct (Z.gtb_spec a 13)
      end;
      destruct (Z.ltb_spec newRow 5); cbn [andb];
      destruct Hsucc as [[? Hsc] | [? ?]]; try rewrite Hsc in *; lia. }
  cbv zeta in Hnum. destruct Hnum as (H1 & H2 & H3).
  split; [exact H1 |]. split; [exact H2 |]. split; [exact H3 |].
  intros i. rewrite afterScore_revealed, Hrev.
  destruct (Z.ltb_spec newRow (playerRow (this w))) as [Hlt | Hge].
  - split.
    + intros [(m & Hm & Hle) | [_ Hm]].
      * exists m. split; [exact Hm |].
        pose proof (milestone_index i m Hm) as Hidx.
        destruct Hsucc as [[_ ->] | [? ?]]; lia.
      * exists (succ64 (score (this w))). split; [exact Hm | lia].
    + intros (m & Hm & Hle).
      pose proof (milestone_index i m Hm) as Hidx.
      destruct (Z.eq_dec m (succ64 (score (this w)))) as [-> | Hne].
      * right. split; assumption.
      * left. exists m. split; [exact Hm |].
        destruct Hsucc as [[_ Hsc] | [? ?]]; [rewrite Hsc in *; lia | lia].
  - split.
    + intros [H | [Hlt _]]; [exact H | lia].
    + intros H. left. exact H.
Qed.

Lemma startGame_runInv (w : State) : runInv (startGame w).
Proof.
  unfold runInv. destruct (startGame_this w) as [cs ->].
  cbn [score playerRow revealedComps].
  split; [lia |]. split; [lia |]. split; [lia |].
  intros i. split; [intros [] |].
  intros (m & Hm & Hle). apply milestone_index in Hm. lia.
Qed.

Lemma fire_player (cb : Callback) (w : State) :
  playerRow (this (fire cb w)) = playerRow (this w) /\
  playerCol (this (fire cb w)) = playerCol (this w).
Proof.
  destruct cb; cbn [fire].
  - unfold gameLoopTick. destruct (isPlaying (this w)); cbn [negb];
      [| split; reflexivity].
    match goal with
    | |- context [if checkCollisions ?w' then _ else _] =>
        destruct (checkCollisions w');
          [destruct (gameOver_board w') as (_ & -> & -> & _) |]
    end; split; reflexivity.
  - unfold carSpawnerTick. destruct (isPlaying (this w));
      [apply spawnCars_player | split; reflexivity].
Qed.

Lemma runStep_runInv (w w' : State) : runStep w w' -> runInv w -> runInv w'.
Proof.
  intros Hrun Hinv. destruct Hrun as [key w _ | h cb w _].
  - destruct (handleKeyPress_commit_cases key w)
      as [[_ ->] | [(_ & -> & _) | (newRow & newCol & _ & _ & Hcand & _ & ->)]].
    + unfold runInv. rewrite resumeGame_this. exact Hinv.
    + exact Hinv.
    + apply (commitMove_runInv key); assumption.
  - unfold runInv. rewrite fire_score, fire_revealed.
    destruct (fire_player cb w) as [-> _]. exact Hinv.
Qed.

Lemma reachable_runInv (w : State) : reachable w -> runInv w.
Proof.
  intros Hreach. induction Hreach as [w0 | w w' _ IH Hstep].
  - apply startGame_runInv.
  - destruct Hstep as [w | w w' Hrun].
    + apply startGame_runInv.
    + apply (runStep_runInv w w' Hrun IH).
Qed.

Lemma reachable_revealed_NoDup (w : State) :
  reachable w -> NoDup (revealedComps (this w)).
Proof.
  intros Hreach. induction Hreach as [w0 | w w' _ IH Hstep].
  - destruct (startGame_this w0) as [cs ->]. constructor.
  - destruct Hstep as [w | w w' Hrun].
    + destruct (startGame_this w) as [cs ->]. constructor.
    + destruct Hrun as [key w _ | h cb w _].
      * apply handleKeyPress_revealed_NoDup, IH.
      * rewrite fire_revealed. exact IH.
Qed.

Lemma pressKey_reachable (key : string) (n : nat) (w : State) :
  reachable w ->
  (forall k, (k < n)%nat -> keydown (env (pressKey key k w)) = true) ->
  reachable (pressKey key n w).
Proof.
  revert w. induction n as [| n IH]; intros w Hreach Hkeys; [exact Hreach |].
  cbn [pressKey]. apply IH.
  - apply (reach_step w); [exact Hreach |].
    apply step_run, step_key. apply (Hkeys 0%nat). lia.
  - intros k Hk. apply (Hkeys (S k)). lia.
Qed.

(** Ten moves up right after a run start on a quiet road. *)
Lemma tenUp_reachable : reachable (pressKey "ArrowUp" 10 (startGame emptyRoad)).
Proof.
  apply pressKey_reachable; [apply reach_start |].
  intros k Hk.
  do 10 (destruct k as [| k]; [vm_compute; reflexivity |]).
  lia.
Qed.

(** X3: in every state reachable from a run start the player stands on a
    row from 1 to 14, and on a row from 5 to 14 once the score is above
    13: the scroll shift keeps the top row out of reach.  So while the
    game is playing an ArrowUp press is never blocked: it always moves the
    player, one row up or, with the scroll shift, nine rows down, and it
    scores one point as long as the score is below [2^53]. *)
Theorem player_never_reaches_top_row (w : State) :
  reachable w ->
  1 <= playerRow (this w) <= 14 /\
  (13 < score (this w) -> 5 <= playerRow (this w)) /\
  (isWaitingForInput (this w) = false -> isPlaying (this w) = true ->
   (playerRow (this (handleKeyPress "ArrowUp" w)) = playerRow (this w) - 1 \/
    playerRow (this (handleKeyPress "ArrowUp" w)) = playerRow (this w) + 9) /\
   (score (this w) < 2 ^ 53 ->
    score (this (handleKeyPress "ArrowUp" w)) = score (this w) + 1)).
Proof.
  intros Hreach.
  destruct (reachable_runInv w Hreach) as (Hs & Hlow & Hhigh & _).
  destruct (reachable_onGrid w Hreach) as [[Hrow _] _].
  unfold gridRows in Hrow.
  assert (Hrow1 : 1 <= playerRow (this w)) by lia.
  split; [lia |]. split; [exact Hhigh |].
  intros Hwait Hplay.
  assert (Hcand : candidate "ArrowUp" w =
                  Some (Z.max 0 (playerRow (this w) - 1), playerCol (this w)))
    by reflexivity.
  split.
  - destruct (handleKeyPress_commit_cases "ArrowUp" w)
      as [[Hw _] | [(_ & _ & Hwhy) | (newRow & newCol & _ & _ & Hc & _ & ->)]].
    + congruence.
    + exfalso. destruct Hwhy as [Hn | [Hn | Hn]]; [congruence | congruence |].
      rewrite Hcand in Hn. inversion Hn. lia.
    + rewrite Hcand in Hc. inversion Hc; subst newRow newCol.
      destruct (commitMove_board (Z.max 0 (playerRow (this w) - 1))
                  (playerCol (this w)) w) as (_ & -> & _).
      destruct ((score (this (afterScore (Z.max 0 (playerRow (this w) - 1))
                                (playerCol (this w)) w)) >? 13) &&
                (Z.max 0 (playerRow (this w) - 1) <? 5)); lia.
  - intros Hlim.
    destruct (handleKeyPress_score "ArrowUp" w) as [[_ Hup] | [Hno _]].
    + rewrite Hup. apply succ64_small. lia.
    + exfalso. apply Hno. split; [exact Hwait |]. split; [exact Hplay |].
      exists (Z.max 0 (playerRow (this w) - 1)), (playerCol (this w)).
      split; [reflexivity | lia].
Qed.

Lemma player_never_reaches_top_row_witness :
  reachable (pressKey "ArrowUp" 10 (startGame emptyRoad)) /\
  1 <= playerRow (this (pressKey "ArrowUp" 10 (startGame emptyRoad))) <= 14.
Proof.
  split; [exact tenUp_reachable |].
  exact (proj1 (player_never_reaches_top_row _ tenUp_reachable)).
Defined.

(** X4: in every state reachable from a run start (the first [startGame]
    on; the page-load state [init] leaves behind is not one of them) the
    revealed indices are exactly those of the thresholds of
    [10, 20, 30, 40] that the score has reached: no milestone is skipped
    and none is revealed early; so they are at most four, all below 4. *)
Theorem revealed_are_the_thresholds_reached (w : State) :
  reachable w ->
  (forall i : nat,
     In i (revealedComps (this w)) <->
     exists m, nth_error milestones i = Some m /\ m <= score (this w)) /\
  (forall i : nat, In i (revealedComps (this w)) -> (i < 4)%nat) /\
  (List.length (revealedComps (this w)) <= 4)%nat.
Proof.
  intros Hreach.
  destruct (reachable_runInv w Hreach) as (_ & _ & _ & Hrev).
  assert (Hlt : forall i, In i (revealedComps (this w)) -> (i < 4)%nat).
  { intros i Hin. apply Hrev in Hin as (m & Hm & _).
    apply milestone_index in Hm. lia. }
  split; [exact Hrev |]. split; [exact Hlt |].
  change 4%nat with (List.length (seq 0 4)).
  apply NoDup_incl_length; [apply reachable_revealed_NoDup, Hreach |].
  intros i Hin. apply in_seq. specialize (Hlt i Hin). lia.
Qed.

Lemma revealed_are_the_thresholds_reached_witness :
  reachable (pressKey "ArrowUp" 10 (startGame emptyRoad)) /\
  (In 0%nat (revealedComps
               (this (pressKey "ArrowUp" 10 (startGame emptyRoad)))) <->
   exists m, nth_error milestones 0 = Some m /\
             m <= score (this (pressKey "ArrowUp" 10 (startGame emptyRoad)))).
Proof.
  split; [exact tenUp_reachable |].
  exact (proj1 (revealed_are_the_thresholds_reached _ tenUp_reachable) 0%nat).
Defined.

Lemma runInv_includes (w : State) :
  runInv w ->
  includes (revealedComps (this w)) 0 = (10 <=? score (this w)) /\
  includes (revealedComps (this w)) 1 = (20 <=? score (this w)) /\
  includes (revealedComps (this w)) 2 = (30 <=? score (this w)) /\
  includes (revealedComps (this w)) 3 = (40 <=? score (this w)).
Proof.
  intros (_ & _ & _ & Hrev).
  assert (Hone : forall (i : nat) (m : Z),
            nth_error milestones i = Some m ->
            includes (revealedComps (this w)) i = (m <=? score (this w))).
  { intros i m Hm.
    destruct (Z.leb_spec m (score (this w))) as [Hle | Hgt].
    - apply includes_In, Hrev. exists m. split; assumption.
    - destruct (includes (revealedComps (this w)) i) eqn:Hinc; [| reflexivity].
      apply includes_In, Hrev in Hinc as (m' & Hm' & Hle').
      rewrite Hm in Hm'. inversion Hm'; subst. lia. }
  repeat split; apply Hone; reflexivity.
Qed.

(** X5: in every state reachable from a run start (the first [startGame]
    on; the page-load state [init] leaves behind is not one of them)
    [renderCompetitionCards] shows the first [k] competitions, in table
    order, where [k] is the number of thresholds the score has reached. *)
Theorem cards_follow_the_score (w : State) :
  reachable w ->
  renderCompetitionCards w =
    firstn (List.length (filter (fun m => m <=? score (this w)) milestones))
      competitions.
Proof.
  intros Hreach.
  destruct (runInv_includes w (reachable_runInv w Hreach))
    as (H0 & H1 & H2 & H3).
  unfold renderCompetitionCards, competitions, milestones.
  cbn [cardsFrom filter]. rewrite H0, H1, H2, H3.
  destruct (Z.leb_spec 10 (score (this w)));
    destruct (Z.leb_spec 20 (score (this w)));
    destruct (Z.leb_spec 30 (score (this w)));
    destruct (Z.leb_spec 40 (score (this w)));
    try reflexivity; lia.
Qed.

Lemma cards_follow_the_score_witness :
  reachable (pressKey "ArrowUp" 10 (startGame emptyRoad)) /\
  renderCompetitionCards (pressKey "ArrowUp" 10 (startGame emptyRoad)) =
    [mkCompetition "Nasha" "West Lafayette, IN" "Purdue" "Jan 31, 2026"].
Proof.
  split; [exact tenUp_reachable |].
  rewrite (cards_follow_the_score _ tenUp_reachable).
  vm_compute. reflexivity.
Defined.

(* ================================================================== *)
(** ** Timers, listener and stored play count                           *)
(* ================================================================== *)

Lemma clearIfSet_env (handle : option nat) (w : State) :
  env (clearIfSet handle w) =
  mkBrowser (playthroughs (env w)) (clearHandle handle (intervals (env w)))
    (nextHandle (env w)) (keydown (env w)) (random (env w)) (drawn (env w)).
Proof. destruct handle; [reflexivity |]. destruct w as [? []]. reflexivity. Qed.

Lemma pauseGame_env (w : State) :
  env (pauseGame w) =
  mkBrowser (playthroughs (env w))
    (clearHandle (carInterval (this w))
       (clearHandle (gameInterval (this w)) (intervals (env w))))
    (nextHandle (env w)) (keydown (env w)) (random (env w)) (drawn (env w)).
Proof.
  unfold pauseGame. cbv zeta. rewrite !clearIfSet_env, !clearIfSet_this.
  reflexivity.
Qed.

Lemma gameOver_env (w : State) :
  env (gameOver w) =
  mkBrowser (Some (succ64 (getPlaythroughs w)))
    (clearHandle (carInterval (this w))
       (clearHandle (gameInterval (this w)) (intervals (env w))))
    (nextHandle (env w)) false (random (env w)) (drawn (env w)).
Proof.
  unfold gameOver, setPlaythroughs, set_keydown, getPlaythroughs. cbv zeta.
  cbn [env this playthroughs intervals nextHandle keydown random drawn].
  rewrite !clearIfSet_env, !clearIfSet_this. reflexivity.
Qed.

Lemma startCarSpawning_env (w : State) :
  exists k : nat,
    env (startCarSpawning w) =
    mkBrowser (playthroughs (env w))
      ((nextHandle (env w), CarSpawner) :: intervals (env w))
      (S (nextHandle (env w))) (keydown (env w)) (random (env w))
      (k + drawn (env w)).
Proof.
  unfold startCarSpawning, setInterval. spawn_shape. exists k. reflexivity.
Qed.

Lemma resumeGame_env (w : State) :
  exists k : nat,
    env (resumeGame w) =
    mkBrowser (playthroughs (env w))
      ((S (nextHandle (env w)), CarSpawner) ::
       (nextHandle (env w), GameLoop) :: intervals (env w))
      (S (S (nextHandle (env w)))) (keydown (env w)) (random (env w))
      (k + drawn (env w)).
Proof.
  unfold resumeGame. cbv zeta.
  match goal with
  | |- context [startCarSpawning ?w'] =>
      destruct (startCarSpawning_env w') as [k Hk]; rewrite Hk
  end.
  exists k. reflexivity.
Qed.

Lemma startGame_env (w : State) :
  exists k : nat,
    env (startGame w) =
    mkBrowser (playthroughs (env w))
      ((S (nextHandle (env w)), CarSpawner) ::
       (nextHandle (env w), GameLoop) :: intervals (env w))
      (S (S (nextHandle (env w)))) true (random (env w))
      (k + drawn (env w)).
Proof.
  unfold startGame. cbv zeta.
  match goal with
  | |- context [startCarSpawning ?w'] =>
      destruct (startCarSpawning_env w') as [k Hk]; rewrite Hk
  end.
  exists k. reflexivity.
Qed.

(** X6: neither [startGame] nor [resumeGame] clears a timer: each installs
    a new game loop and a new car spawner on top of whatever timers are
    live, so a run started while timers are live keeps the old ones firing
    beside the new ones. *)
Theorem run_start_keeps_live_timers (w : State) :
  intervals (env (startGame w)) =
    (S (nextHandle (env w)), CarSpawner) ::
    (nextHandle (env w), GameLoop) :: intervals (env w) /\
  intervals (env (resumeGame w)) =
    (S (nextHandle (env w)), CarSpawner) ::
    (nextHandle (env w), GameLoop) :: intervals (env w) /\
  gameInterval (this (startGame w)) = Some (nextHandle (env w)) /\
  carInterval (this (startGame w)) = Some (S (nextHandle (env w))) /\
  gameInterval (this (resumeGame w)) = Some (nextHandle (env w)) /\
  carInterval (this (resumeGame w)) = Some (S (nextHandle (env w))).
Proof.
  destruct (startGame_env w) as [k1 H1].
  destruct (resumeGame_env w) as [k2 H2].
  destruct (startGame_this w) as [cs H3].
  rewrite H1, H2, H3, resumeGame_this. repeat split.
Qed.

(** A run started twice in a row: four timers are live. *)
Example double_start_leaks_timers :
  intervals (env (startGame (startGame (loaded None (mkDouble 0 53))))) =
    [(4%nat, CarSpawner); (3%nat, GameLoop);
     (2%nat, CarSpawner); (1%nat, GameLoop)].
Proof. vm_compute. reflexivity. Qed.

Lemma revealAt_cases (milestone : Z) (index : nat) (w : State) :
  revealAt milestone index w = w \/
  (score (this w) = milestone /\
   revealAt milestone index w =
     showRevealModal index
       (set_revealedComps (revealedComps (this w) ++ [index]) w)).
Proof.
  unfold revealAt.
  destruct (Z.eqb_spec (score (this w)) milestone) as [Hs | Hs]; cbn [andb];
    [| left; reflexivity].
  destruct (includes (revealedComps (this w)) index); cbn [negb];
    [left; reflexivity | right; split; [exact Hs | reflexivity]].
Qed.

Lemma showRevealModal_score (index : nat) (w : State) :
  score (this (showRevealModal index w)) = score (this w).
Proof. rewrite showRevealModal_this. reflexivity. Qed.

(** The milestone check does nothing, or it reveals one index and pauses. *)
Lemma checkCompetitionReveals_cases (w : State) :
  checkCompetitionReveals w = w \/
  exists index : nat,
    checkCompetitionReveals w =
      showRevealModal index
        (set_revealedComps (revealedComps (this w) ++ [index]) w).
Proof.
  unfold checkCompetitionReveals, milestones. cbn [forEachFrom].
  destruct (revealAt_cases 10 0 w) as [-> | [Hs ->]].
  2: { right. exists 0%nat.
       rewrite (revealAt_skip 20), (revealAt_skip 30), (revealAt_skip 40);
         try (rewrite showRevealModal_score; cbn; lia).
       reflexivity. }
  destruct (revealAt_cases 20 1 w) as [-> | [Hs ->]].
  2: { right. exists 1%nat.
       rewrite (revealAt_skip 30), (revealAt_skip 40);
         try (rewrite showRevealModal_score; cbn; lia).
       reflexivity. }
  destruct (revealAt_cases 30 2 w) as [-> | [Hs ->]].
  2: { right. exists 2%nat.
       rewrite (revealAt_skip 40);
         try (rewrite showRevealModal_score; cbn; lia).
       reflexivity. }
  destruct (revealAt_cases 40 3 w) as [-> | [Hs ->]].
  - left. reflexivity.
  - right. exists 3%nat. reflexivity.
Qed.

(** After the score has been settled the run flags, the recorded handles
    and the browser are as before, or the game has just been paused for a
    reveal. *)
Lemma afterScore_run (newRow newCol : Z) (w : State) :
  gameInterval (this (afterScore newRow newCol w)) = gameInterval (this w) /\
  carInterval (this (afterScore newRow newCol w)) = carInterval (this w) /\
  ((isPlaying (this (afterScore newRow newCol w)) = isPlaying (this w) /\
    isWaitingForInput (this (afterScore newRow newCol w)) =
      isWaitingForInput (this w) /\
    env (afterScore newRow newCol w) = env w) \/
   (isPlaying (this (afterScore newRow newCol w)) = false /\
    isWaitingForInput (this (afterScore newRow newCol w)) = true /\
    env (afterScore newRow newCol w) = env (pauseGame w))).
Proof.
  unfold afterScore. cbv zeta.
  destruct (newRow <? playerRow (this w)).
  2: { repeat split. left. repeat split. }
  match goal with
  | |- context [checkCompetitionReveals ?w'] =>
      destruct (checkCompetitionReveals_cases w') as [-> | [index ->]]
  end.
  - repeat split. left. repeat split.
  - rewrite showRevealModal_this. cbn [gameInterval carInterval isPlaying
      isWaitingForInput set_isWaitingForInput set_isPlaying this].
    split; [reflexivity |]. split; [reflexivity |]. right.
    split; [reflexivity |]. split; [reflexivity |].
    unfold showRevealModal, set_isWaitingForInput. cbn [env].
    rewrite !pauseGame_env. reflexivity.
Qed.

Lemma shiftOrNot_run (b : bool) (w : State) :
  env (if b then scrollShift w else w) = env w /\
  isPlaying (this (if b then scrollShift w else w)) = isPlaying (this w) /\
  isWaitingForInput (this (if b then scrollShift w else w)) =
    isWaitingForInput (this w) /\
  gameInterval (this (if b then scrollShift w else w)) = gameInterval (this w) /\
  carInterval (this (if b then scrollShift w else w)) = carInterval (this w).
Proof. destruct b; repeat split. Qed.

(** The collision check at the end of a tick or of a committed move. *)
Lemma afterCollision_cases (w : State) :
  (checkCollisions (if checkCollisions w then gameOver w else w) = true /\
   isPlaying (this (if checkCollisions w then gameOver w else w)) = false /\
   keydown (env (if checkCollisions w then gameOver w else w)) = false /\
   getPlaythroughs (if checkCollisions w then gameOver w else w) =
     succ64 (getPlaythroughs w)) \/
  (checkCollisions w = false /\
   (if checkCollisions w then gameOver w else w) = w).
Proof.
  destruct (checkCollisions w) eqn:Hc.
  - left. split.
    + unfold checkCollisions in *. rewrite gameOver_this. exact Hc.
    + rewrite gameOver_this. unfold getPlaythroughs at 1.
      rewrite gameOver_env. repeat split.
  - right. split; reflexivity.
Qed.

(** X7: with a stored play count from 0 to [2^53 - 1], a game-loop tick
    while playing, and a committed move, end the run exactly when they
    leave a car on the player's cell: then the game stops playing, the key
    listener is removed and the stored play count grows by one; otherwise
    the listener and the count are untouched (and after a tick the game is
    still playing). *)
Theorem collision_ends_the_run :
  (forall w : State,
     isPlaying (this w) = true ->
     0 <= getPlaythroughs w < 2 ^ 53 ->
     (checkCollisions (gameLoopTick w) = true /\
      isPlaying (this (gameLoopTick w)) = false /\
      keydown (env (gameLoopTick w)) = false /\
      getPlaythroughs (gameLoopTick w) = getPlaythroughs w + 1) \/
     (checkCollisions (gameLoopTick w) = false /\
      isPlaying (this (gameLoopTick w)) = true /\
      keydown (env (gameLoopTick w)) = keydown (env w) /\
      getPlaythroughs (gameLoopTick w) = getPlaythroughs w)) /\
  (forall (key : string) (w : State) (newRow newCol : Z),
     isWaitingForInput (this w) = false ->
     isPlaying (this w) = true ->
     candidate key w = Some (newRow, newCol) ->
     newRow <> playerRow (this w) \/ newCol <> playerCol (this w) ->
     0 <= getPlaythroughs w < 2 ^ 53 ->
     (checkCollisions (handleKeyPress key w) = true /\
      isPlaying (this (handleKeyPress key w)) = false /\
      keydown (env (handleKeyPress key w)) = false /\
      getPlaythroughs (handleKeyPress key w) = getPlaythroughs w + 1) \/
     (checkCollisions (handleKeyPress key w) = false /\
      keydown (env (handleKeyPress key w)) = keydown (env w) /\
      getPlaythroughs (handleKeyPress key w) = getPlaythroughs w)).
Proof.
  split.
  - intros w Hplay Hcount. unfold gameLoopTick. rewrite Hplay. cbn [negb].
    match goal with
    | |- context [if checkCollisions ?w' then _ else _] =>
        destruct (afterCollision_cases w') as [(Hc & Hp & Hk & Hn) | (Hc & ->)]
    end.
    + left. split; [exact Hc |]. split; [exact Hp |]. split; [exact Hk |].
      rewrite Hn. apply (succ64_small (getPlaythroughs w) Hcount).
    + right. split; [exact Hc |]. split; [exact Hplay |]. split; reflexivity.
  - intros key w newRow newCol Hwait Hplay Hcand Hchg Hcount.
    rewrite (handleKeyPress_committed key w newRow newCol Hwait Hplay Hcand Hchg).
    cbv zeta.
    set (w1 := afterScore newRow newCol w).
    set (b := (score (this w1) >? 13) && (playerRow (this w1) <? 5)).
    destruct (shiftOrNot_run b w1) as (Henv & _).
    assert (Hw1 : keydown (env w1) = keydown (env w) /\
                  playthroughs (env w1) = playthroughs (env w)).
    { destruct (afterScore_run newRow newCol w) as (_ & _ & [(_ & _ & He) | (_ & _ & He)]);
        subst w1; rewrite He; [split; reflexivity |].
      rewrite pauseGame_env. split; reflexivity. }
    destruct Hw1 as [Hk1 Hp1].
    assert (Hget : getPlaythroughs (if b then scrollShift w1 else w1) =
                   getPlaythroughs w).
    { unfold getPlaythroughs. rewrite Henv, Hp1. reflexivity. }
    destruct (afterCollision_cases (if b then scrollShift w1 else w1))
      as [(Hc & Hp & Hk & Hn) | (Hc & ->)].
    + left. split; [exact Hc |]. split; [exact Hp |]. split; [exact Hk |].
      rewrite Hn, Hget. apply succ64_small, Hcount.
    + right. split; [exact Hc |]. rewrite Henv. split; assumption.
Qed.

Lemma collision_ends_the_run_witness :
  isPlaying (this onCar) = true /\
  0 <= getPlaythroughs onCar < 2 ^ 53 /\
  ((checkCollisions (gameLoopTick onCar) = true /\
    isPlaying (this (gameLoopTick onCar)) = false /\
    keydown (env (gameLoopTick onCar)) = false /\
    getPlaythroughs (gameLoopTick onCar) = getPlaythroughs onCar + 1) \/
   (checkCollisions (gameLoopTick onCar) = false /\
    isPlaying (this (gameLoopTick onCar)) = true /\
    keydown (env (gameLoopTick onCar)) = keydown (env onCar) /\
    getPlaythroughs (gameLoopTick onCar) = getPlaythroughs onCar)).
Proof.
  assert (Hc : 0 <= getPlaythroughs onCar < 2 ^ 53) by (cbn; lia).
  split; [reflexivity |]. split; [exact Hc |].
  exact (proj1 collision_ends_the_run onCar eq_refl Hc).
Defined.

Lemma timersInStep_ext (w w' : State) :
  intervals (env w') = intervals (env w) ->
  keydown (env w') = keydown (env w) ->
  isPlaying (this w') = isPlaying (this w) ->
  isWaitingForInput (this w') = isWaitingForInput (this w) ->
  gameInterval (this w') = gameInterval (this w) ->
  carInterval (this w') = carInterval (this w) ->
  timersInStep w -> timersInStep w'.
Proof.
  unfold timersInStep. intros -> -> -> -> -> -> H. exact H.
Qed.

Lemma clear_both (g c : nat) :
  g <> c ->
  clearHandle (Some c)
    (clearHandle (Some g) [(c, CarSpawner); (g, GameLoop)]) = [].
Proof.
  intros Hne. cbn [clearHandle filter fst].
  rewrite Nat.eqb_refl. rewrite (proj2 (Nat.eqb_neq c g)) by auto.
  cbn [negb filter fst]. rewrite Nat.eqb_refl. reflexivity.
Qed.

Lemma clearHandle_nil (handle : option nat) : clearHandle handle [] = [].
Proof. destruct handle; reflexivity. Qed.

(** Clearing the two recorded timers leaves none live. *)
Lemma timersInStep_cleared (w : State) :
  timersInStep w ->
  clearHandle (carInterval (this w))
    (clearHandle (gameInterval (this w)) (intervals (env w))) = [].
Proof.
  intros [[-> _] | (g & c & Hne & -> & -> & -> & _)].
  - rewrite !clearHandle_nil. reflexivity.
  - apply clear_both, Hne.
Qed.

Lemma afterCollision_timers (w : State) :
  timersInStep w ->
  timersInStep (if checkCollisions w then gameOver w else w).
Proof.
  intros Ht. destruct (checkCollisions w); [| exact Ht].
  left. rewrite gameOver_env, gameOver_this. cbn [intervals isPlaying
    set_isPlaying this].
  split; [apply timersInStep_cleared, Ht | reflexivity].
Qed.

Lemma commitMove_timers (newRow newCol : Z) (w : State) :
  timersInStep w -> timersInStep (commitMove newRow newCol w).
Proof.
  intros Ht. unfold commitMove. cbv zeta.
  set (w1 := afterScore newRow newCol w).
  set (b := (score (this w1) >? 13) && (playerRow (this w1) <? 5)).
  apply afterCollision_timers.
  destruct (shiftOrNot_run b w1) as (He & Hp & Hw & Hg & Hc).
  assert (Ht1 : timersInStep w1).
  { subst w1.
    destruct (afterScore_run newRow newCol w)
      as (Hg1 & Hc1 & [(Hp1 & Hw1 & He1) | (Hp1 & Hw1 & He1)]).
    - apply (timersInStep_ext w); try assumption; rewrite He1; reflexivity.
    - left. rewrite He1, pauseGame_env. cbn [intervals].
      split; [apply timersInStep_cleared, Ht | exact Hp1]. }
  apply (timersInStep_ext w1); try assumption; rewrite He; reflexivity.
Qed.

Lemma handleKeyPress_timers (key : string) (w : State) :
  keydown (env w) = true ->
  timersInStep w -> timersInStep (handleKeyPress key w).
Proof.
  intros Hkey Ht.
  destruct (handleKeyPress_commit_cases key w)
    as [[Hwait ->] | [(_ & -> & _) | (newRow & newCol & _ & _ & _ & _ & ->)]].
  - destruct Ht as [[Hnil _] | (g & c & _ & _ & _ & _ & _ & Hw & _)];
      [| congruence].
    right. exists (nextHandle (env w)), (S (nextHandle (env w))).
    destruct (resumeGame_env w) as [k ->]. rewrite resumeGame_this.
    cbn [intervals keydown gameInterval carInterval isPlaying
         isWaitingForInput]. rewrite Hnil.
    repeat split; auto.
  - exact Ht.
  - apply commitMove_timers, Ht.
Qed.

Lemma fire_timers (cb : Callback) (w : State) :
  timersInStep w -> timersInStep (fire cb w).
Proof.
  intros Ht. destruct cb; cbn [fire].
  - unfold gameLoopTick. destruct (isPlaying (this w)); cbn [negb];
      [| exact Ht].
    apply afterCollision_timers.
    apply (timersInStep_ext w); try reflexivity. exact Ht.
  - destruct (carSpawnerTick_frame w) as (cs & k & Hthis & Henv).
    apply (timersInStep_ext w); try (rewrite Hthis; reflexivity);
      try (rewrite Henv; reflexivity).
    exact Ht.
Qed.

Lemma startGame_timers (w : State) :
  intervals (env w) = [] -> timersInStep (startGame w).
Proof.
  intros Hnil. right.
  exists (nextHandle (env w)), (S (nextHandle (env w))).
  destruct (startGame_env w) as [k ->].
  destruct (startGame_this w) as [cs ->].
  cbn [intervals keydown gameInterval carInterval isPlaying isWaitingForInput].
  rewrite Hnil. repeat split; auto.
Qed.

Lemma orderly_timers (w : State) : orderly w -> timersInStep w.
Proof.
  intros Hord. induction Hord as [w0 Hnil | w w' _ IH Hrun | w _ IH Hstop].
  - apply startGame_timers, Hnil.
  - destruct Hrun as [key w Hkey | h cb w _].
    + apply handleKeyPress_timers; assumption.
    + apply fire_timers, IH.
  - apply startGame_timers.
    destruct IH as [[Hnil _] | (g & c & _ & _ & _ & _ & Hp & _)];
      [exact Hnil | congruence].
Qed.

(** X8: in a session where runs are only started between runs, the live
    timers are always in step with the game: while it plays exactly one
    game loop and one car spawner are live, the two whose handles are
    recorded, and the key listener is registered; while it is paused for a
    reveal or over, no timer is live.  Once the key listener is gone as
    well (game over), no event inside the run can happen any more. *)
Theorem orderly_timers_in_step (w : State) :
  orderly w ->
  timersInStep w /\
  (isPlaying (this w) = false -> intervals (env w) = []) /\
  (keydown (env w) = false -> forall w', ~ runStep w w').
Proof.
  intros Hord. pose proof (orderly_timers w Hord) as Ht.
  split; [exact Ht |].
  assert (Hstop : isPlaying (this w) = false -> intervals (env w) = []).
  { intros Hp. destruct Ht as [[Hnil _] | (g & c & _ & _ & _ & _ & Hp' & _)];
      [exact Hnil | congruence]. }
  split; [exact Hstop |].
  intros Hkey w' Hrun.
  assert (Hnil : intervals (env w) = []).
  { destruct Ht as [[Hnil _] | (g & c & _ & _ & _ & _ & _ & _ & Hk)];
      [exact Hnil | congruence]. }
  inversion Hrun as [key w0 Hk | h cb w0 Hin]; subst.
  - congruence.
  - rewrite Hnil in Hin. exact Hin.
Qed.

Lemma orderly_timers_in_step_witness :
  orderly (startGame (loaded None (mkDouble 0 53))) /\
  timersInStep (startGame (loaded None (mkDouble 0 53))).
Proof.
  assert (Hord : orderly (startGame (loaded None (mkDouble 0 53))))
    by (apply orderly_start; reflexivity).
  split; [exact Hord |].
  exact (proj1 (orderly_timers_in_step _ Hord)).
Defined.

(* ================================================================== *)
(** ** Resuming, and the play count across game overs                   *)
(* ================================================================== *)

Lemma spawnAttempt_prefix (w : State) :
  exists added, cars (this (spawnAttempt w)) = cars (this w) ++ added.
Proof.
  unfold spawnAttempt, Math_random.
  cbn [fst snd this env cars random drawn].
  match goal with
  | |- context [if negb ?b then _ else _] => destruct b
  end; cbn [negb].
  - exists []. rewrite app_nil_r. reflexivity.
  - eexists. reflexivity.
Qed.

Lemma repeatAttempts_prefix (n : nat) (w : State) :
  exists added, cars (this (repeatAttempts n w)) = cars (this w) ++ added.
Proof.
  revert w. induction n as [| n IH]; intros w.
  - exists []. rewrite app_nil_r. reflexivity.
  - cbn [repeatAttempts].
    destruct (spawnAttempt_prefix w) as (a1 & Hc1).
    destruct (IH (spawnAttempt w)) as (a2 & Hc2).
    exists (a1 ++ a2). rewrite Hc2, Hc1, app_assoc. reflexivity.
Qed.

Lemma spawnCars_prefix (w : State) :
  exists added, cars (this (spawnCars w)) = cars (this w) ++ added.
Proof.
  unfold spawnCars, Math_random. cbn [fst snd].
  match goal with
  | |- context [repeatAttempts ?n ?w'] =>
      destruct (repeatAttempts_prefix n w') as (added & Hc)
  end.
  exists added. exact Hc.
Qed.

(** X9: while the game waits on a reveal, any key, an arrow included, only
    resumes it: the game plays again, score, player cell and revealed
    milestones are as before, play count and key listener are untouched,
    and the cars on the road are kept, with the cars of an immediate spawn
    appended. *)
Theorem any_key_resumes (key : string) (w : State) :
  isWaitingForInput (this w) = true ->
  isPlaying (this (handleKeyPress key w)) = true /\
  isWaitingForInput (this (handleKeyPress key w)) = false /\
  score (this (handleKeyPress key w)) = score (this w) /\
  playerRow (this (handleKeyPress key w)) = playerRow (this w) /\
  playerCol (this (handleKeyPress key w)) = playerCol (this w) /\
  revealedComps (this (handleKeyPress key w)) = revealedComps (this w) /\
  (exists added,
     cars (this (handleKeyPress key w)) = cars (this w) ++ added) /\
  playthroughs (env (handleKeyPress key w)) = playthroughs (env w) /\
  keydown (env (handleKeyPress key w)) = keydown (env w).
Proof.
  intros Hwait. unfold handleKeyPress. rewrite Hwait.
  destruct (resumeGame_env w) as [k ->]. rewrite resumeGame_this.
  cbn [isPlaying isWaitingForInput score playerRow playerCol revealedComps
       cars playthroughs keydown].
  repeat split.
  match goal with
  | |- context [spawnCars ?w'] => destruct (spawnCars_prefix w') as (added & ->)
  end.
  exists added. reflexivity.
Qed.

Lemma any_key_resumes_witness :
  isWaitingForInput (this (pressKey "ArrowUp" 10 emptyRoad)) = true /\
  isPlaying (this (handleKeyPress "ArrowUp" (pressKey "ArrowUp" 10 emptyRoad)))
    = true /\
  playerRow (this (handleKeyPress "ArrowUp" (pressKey "ArrowUp" 10 emptyRoad)))
    = playerRow (this (pressKey "ArrowUp" 10 emptyRoad)).
Proof.
  assert (Hwait : isWaitingForInput (this (pressKey "ArrowUp" 10 emptyRoad))
                  = true) by (vm_compute; reflexivity).
  split; [exact Hwait |].
  destruct (any_key_resumes "ArrowUp" (pressKey "ArrowUp" 10 emptyRoad) Hwait)
    as (Hp & _ & _ & Hr & _).
  split; [exact Hp | exact Hr].
Defined.

Lemma gameOver_getPlaythroughs (w : State) :
  getPlaythroughs (gameOver w) = succ64 (getPlaythroughs w).
Proof. unfold getPlaythroughs at 1. rewrite gameOver_env. reflexivity. Qed.

Lemma iter_gameOver (n : nat) (w : State) :
  0 <= getPlaythroughs w <= 2 ^ 53 ->
  getPlaythroughs (Nat.iter n gameOver w) =
    Z.min (getPlaythroughs w + Z.of_nat n) (2 ^ 53) /\
  revealedComps (this (Nat.iter n gameOver w)) = revealedComps (this w).
Proof.
  intros Hb. induction n as [| n [IHp IHr]].
  - change (Nat.iter 0 gameOver w) with w. split; [lia | reflexivity].
  - change (Nat.iter (S n) gameOver w) with (gameOver (Nat.iter n gameOver w)).
    rewrite gameOver_getPlaythroughs, gameOver_this.
    cbn [revealedComps set_isPlaying this]. split; [| exact IHr].
    rewrite IHp. rewrite succ64_saturates by lia. lia.
Qed.

(** X10: with a stored play count from 0 to [2^53], every game over adds
    one to it until it stops at [2^53], so after [n] game overs [init]
    pre-reveals all four competitions exactly when the count has reached
    3, and leaves the reveals alone otherwise; from an empty store and
    with nothing revealed, that is after three game overs and not
    before. *)
Theorem game_overs_unlock_all_cards (n : nat) (w : State) :
  0 <= getPlaythroughs w <= 2 ^ 53 ->
  getPlaythroughs (Nat.iter n gameOver w) =
    Z.min (getPlaythroughs w + Z.of_nat n) (2 ^ 53) /\
  revealedComps (this (init (Nat.iter n gameOver w))) =
    (if getPlaythroughs w + Z.of_nat n >=? 3
     then [0; 1; 2; 3]%nat
     else revealedComps (this w)) /\
  (playthroughs (env w) = None -> revealedComps (this w) = [] ->
   (revealedComps (this (init (Nat.iter n gameOver w))) = [0; 1; 2; 3]%nat
    <-> (3 <= n)%nat)).
Proof.
  intros Hb. destruct (iter_gameOver n w Hb) as [Hp Hr].
  assert (Hinit : revealedComps (this (init (Nat.iter n gameOver w))) =
                  (if getPlaythroughs w + Z.of_nat n >=? 3
                   then [0; 1; 2; 3]%nat
                   else revealedComps (this w))).
  { unfold init, checkPermanentReveals. cbv zeta. rewrite Hp.
    destruct (Z.geb_spec (Z.min (getPlaythroughs w + Z.of_nat n) (2 ^ 53)) 3);
      destruct (Z.geb_spec (getPlaythroughs w + Z.of_nat n) 3);
      try reflexivity; try exact Hr; lia. }
  split; [exact Hp |]. split; [exact Hinit |].
  intros Hnone Hempty. rewrite Hinit, Hempty.
  assert (H0 : getPlaythroughs w = 0)
    by (unfold getPlaythroughs; rewrite Hnone; reflexivity).
  rewrite H0. destruct (Z.geb_spec (0 + Z.of_nat n) 3) as [Hge | Hlt].
  - split; [intros _; lia | intros _; reflexivity].
  - split; [intros H; discriminate H | intros Hn; lia].
Qed.

Lemma game_overs_unlock_all_cards_witness :
  0 <= getPlaythroughs (loaded None (mkDouble 0 53)) <= 2 ^ 53 /\
  playthroughs (env (loaded None (mkDouble 0 53))) = None /\
  revealedComps (this (loaded None (mkDouble 0 53))) = [] /\
  revealedComps
    (this (init (Nat.iter 3 gameOver (loaded None (mkDouble 0 53))))) =
    [0; 1; 2; 3]%nat.
Proof.
  assert (Hb : 0 <= getPlaythroughs (loaded None (mkDouble 0 53)) <= 2 ^ 53)
    by (cbn; lia).
  split; [exact Hb |]. split; [reflexivity |]. split; [reflexivity |].
  apply (proj2 (proj2 (game_overs_unlock_all_cards 3
                         (loaded None (mkDouble 0 53)) Hb)) eq_refl eq_refl).
  repeat constructor.
Defined.

(** A stored count of [2^53] is written back unchanged. *)
Example play_count_stuck_at_2_53 :
  getPlaythroughs
    (gameOver (mkState (this onCar)
                 (mkBrowser (Some (2 ^ 53)) [] 3%nat true
                    (fun _ => mkDouble 0 53) 0%nat))) = 2 ^ 53.
Proof. reflexivity. Qed.

(* ================================================================== *)
(** ** Where the cars can be                                            *)
(* ================================================================== *)

Lemma commitMove_random (newRow newCol : Z) (w : State) :
  random (env (commitMove newRow newCol w)) = random (env w).
Proof.
  unfold commitMove. cbv zeta.
  set (w1 := afterScore newRow newCol w).
  set (b := (score (this w1) >? 13) && (playerRow (this w1) <? 5)).
  assert (H1 : random (env w1) = random (env w)).
  { subst w1.
    destruct (afterScore_run newRow newCol w)
      as (_ & _ & [(_ & _ & ->) | (_ & _ & ->)]); [reflexivity |].
    rewrite pauseGame_env. reflexivity. }
  destruct (shiftOrNot_run b w1) as (He & _).
  destruct (checkCollisions (if b then scrollShift w1 else w1)).
  - rewrite gameOver_env. cbn [random]. rewrite He. exact H1.
  - rewrite He. exact H1.
Qed.

Lemma step_random (w w' : State) :
  step w w' -> random (env w') = random (env w).
Proof.
  intros [w0 | w0 w0' Hrun].
  - destruct (startGame_env w0) as [k ->]. reflexivity.
  - destruct Hrun as [key w1 _ | h cb w1 _].
    + destruct (handleKeyPress_commit_cases key w1)
        as [[_ ->] | [(_ & -> & _) | (newRow & newCol & _ & _ & _ & _ & ->)]].
      * destruct (resumeGame_env w1) as [k ->]. reflexivity.
      * reflexivity.
      * apply commitMove_random.
    + destruct cb; cbn [fire].
      * unfold gameLoopTick. destruct (isPlaying (this w1)); cbn [negb];
          [| reflexivity].
        match goal with
        | |- context [if checkCollisions ?w' then _ else _] =>
            destruct (checkCollisions w'); [rewrite gameOver_env |]
        end; reflexivity.
      * destruct (carSpawnerTick_frame w1) as (cs & k & _ & ->). reflexivity.
Qed.

Lemma spawnCars_fresh (w : State) :
  drawsValid w ->
  exists added,
    cars (this (spawnCars w)) = cars (this w) ++ added /\
    Forall freshCar added.
Proof.
  intros Hv. unfold spawnCars, Math_random. cbn [fst snd].
  match goal with
  | |- context [repeatAttempts ?n ?w'] =>
      destruct (repeatAttempts_appends n w' Hv) as (added & Hc & _ & Hf)
  end.
  exists added. split; assumption.
Qed.

Lemma spawnCars_rows (w : State) :
  drawsValid w ->
  Forall (fun car => 1 <= row car <= 14) (cars (this w)) ->
  Forall (fun car => 1 <= row car <= 14) (cars (this (spawnCars w))).
Proof.
  intros Hv Hrows. destruct (spawnCars_fresh w Hv) as (added & -> & Hf).
  apply Forall_app. split; [exact Hrows |].
  revert Hf. apply Forall_impl. intros car [Hr _]. lia.
Qed.

Lemma startGame_rows (w : State) :
  drawsValid w ->
  Forall (fun car => 1 <= row car <= 14) (cars (this (startGame w))).
Proof.
  intros Hv. unfold startGame. cbv zeta. rewrite startCarSpawning_this.
  cbn [cars]. apply spawnCars_rows; [exact Hv | constructor].
Qed.

Lemma resumeGame_rows (w : State) :
  drawsValid w ->
  Forall (fun car => 1 <= row car <= 14) (cars (this w)) ->
  Forall (fun car => 1 <= row car <= 14) (cars (this (resumeGame w))).
Proof.
  intros Hv Hrows. rewrite resumeGame_this. cbn [cars].
  apply spawnCars_rows; [exact Hv | exact Hrows].
Qed.

Lemma commitMove_rows (newRow newCol : Z) (w : State) :
  Forall (fun car => 1 <= row car <= 14) (cars (this w)) ->
  Forall (fun car => 1 <= row car <= 14)
    (cars (this (commitMove newRow newCol w))).
Proof.
  intros Hrows. unfold commitMove. cbv zeta.
  destruct (afterScore_board newRow newCol w) as (_ & _ & _ & Hcars).
  set (w1 := afterScore newRow newCol w) in *.
  set (b := (score (this w1) >? 13) && (playerRow (this w1) <? 5)).
  assert (H2 : Forall (fun car => 1 <= row car <= 14)
                 (cars (this (if b then scrollShift w1 else w1)))).
  { destruct b; [| rewrite Hcars; exact Hrows].
    rewrite scrollShift_this. cbn [cars]. rewrite Hcars.
    apply Forall_forall. intros car' Hin.
    apply in_shifted_cars in Hin as (car & Hin & -> & _ & _ & Hlt).
    rewrite Forall_forall in Hrows. specialize (Hrows car Hin).
    unfold gridRows in Hlt. lia. }
  destruct (checkCollisions (if b then scrollShift w1 else w1));
    [| exact H2].
  rewrite gameOver_this. exact H2.
Qed.

Lemma fire_rows (cb : Callback) (w : State) :
  drawsValid w ->
  Forall (fun car => 1 <= row car <= 14) (cars (this w)) ->
  Forall (fun car => 1 <= row car <= 14) (cars (this (fire cb w))).
Proof.
  intros Hv Hrows. destruct cb; cbn [fire].
  - unfold gameLoopTick. destruct (isPlaying (this w)); cbn [negb];
      [| exact Hrows].
    assert (Hm : Forall (fun car => 1 <= row car <= 14)
                   (map moveCar (cars (this w)))).
    { apply Forall_map. revert Hrows. apply Forall_impl.
      intros car Hr. rewrite moveCar_row. exact Hr. }
    match goal with
    | |- context [if checkCollisions ?w' then _ else _] =>
        destruct (checkCollisions w'); [rewrite gameOver_this |]
    end; exact Hm.
  - unfold carSpawnerTick. destruct (isPlaying (this w)); [| exact Hrows].
    apply spawnCars_rows; assumption.
Qed.

Lemma reachable_rows (w : State) :
  reachable w -> drawsValid w ->
  Forall (fun car => 1 <= row car <= 14) (cars (this w)).
Proof.
  intros Hreach. induction Hreach as [w0 | w w' _ IH Hstep]; intros Hv.
  - apply startGame_rows. unfold drawsValid in *.
    rewrite <- (step_random w0 _ (step_click w0)). exact Hv.
  - assert (Hvw : drawsValid w).
    { unfold drawsValid in *. rewrite <- (step_random w w' Hstep). exact Hv. }
    specialize (IH Hvw).
    destruct Hstep as [w | w w' Hrun].
    + apply startGame_rows, Hvw.
    + destruct Hrun as [key w _ | h cb w _].
      * destruct (handleKeyPress_commit_cases key w)
          as [[_ ->] | [(_ & -> & _) | (newRow & newCol & _ & _ & _ & _ & ->)]].
        -- apply resumeGame_rows; assumption.
        -- exact IH.
        -- apply commitMove_rows, IH.
      * apply fire_rows; assumption.
Qed.

Lemma reachable_rows_NoDup (w : State) : reachable w -> NoDup (carRows w).
Proof.
  intros Hreach. induction Hreach as [w0 | w w' _ IH Hstep].
  - apply startGame_NoDup.
  - destruct Hstep as [w | w w' Hrun].
    + apply startGame_NoDup.
    + destruct Hrun as [key w _ | h cb w _].
      * apply handleKeyPress_NoDup, IH.
      * apply fire_NoDup, IH.
Qed.

Lemma NoDup_rows_length (l : list Z) :
  NoDup l -> (forall x, In x l -> 1 <= x <= 14) -> (List.length l <= 14)%nat.
Proof.
  intros Hnd Hrange.
  change 14%nat with (List.length (map Z.of_nat (seq 1 14))).
  apply NoDup_incl_length; [exact Hnd |].
  intros x Hin. specialize (Hrange x Hin).
  apply in_map_iff. exists (Z.to_nat x). split; [lia |].
  apply in_seq. lia.
Qed.

(** X11: with [Math.random()] returning doubles in [[0, 1)], every car of
    a reachable state is on a row from 1 to 14 (spawned on rows 1 to 12, a
    scroll shift can carry it as far as row 14, the player's start row),
    and as no two cars share a row there are never more than 14 cars. *)
Theorem cars_stay_on_rows_1_to_14 (w : State) :
  reachable w -> drawsValid w ->
  Forall (fun car => 1 <= row car <= 14) (cars (this w)) /\
  (List.length (cars (this w)) <= 14)%nat.
Proof.
  intros Hreach Hv. pose proof (reachable_rows w Hreach Hv) as Hrows.
  split; [exact Hrows |].
  rewrite <- (length_map row).
  apply NoDup_rows_length; [apply reachable_rows_NoDup, Hreach |].
  intros x Hin. apply in_map_iff in Hin as (car & <- & Hin).
  rewrite Forall_forall in Hrows. apply Hrows, Hin.
Qed.

Lemma cars_stay_on_rows_1_to_14_witness :
  reachable (pressKey "ArrowUp" 10 (startGame emptyRoad)) /\
  drawsValid (pressKey "ArrowUp" 10 (startGame emptyRoad)) /\
  (List.length (cars (this (pressKey "ArrowUp" 10 (startGame emptyRoad))))
   <= 14)%nat.
Proof.
  assert (Hv : drawsValid (pressKey "ArrowUp" 10 (startGame emptyRoad))).
  { intros n. unfold valid_draw. vm_compute. repeat split; discriminate. }
  split; [exact tenUp_reachable |]. split; [exact Hv |].
  exact (proj2 (cars_stay_on_rows_1_to_14 _ tenUp_reachable Hv)).
Defined.

(** A scroll shift carries a car from row 4 to row 14, off the lanes. *)
Example car_on_row_14 :
  cars (this (handleKeyPress "ArrowUp"
    (mkState (mkGame true 13 5 4 [mkCar 4 7 left] (Some 1%nat) (Some 2%nat)
                [0%nat] false) quietBrowser))) = [mkCar 14 7 left].
Proof. vm_compute. reflexivity. Qed.

(* ================================================================== *)
(** ** What gets drawn                                                  *)
(* ================================================================== *)

Lemma getCell_on_grid (r c : Z) :
  0 <= r < gridRows -> 0 <= c < gridCols ->
  getCell r c = Some (mkCell r c ((1 <=? r) && (r <=? 13))).
Proof.
  unfold gridRows, gridCols. intros Hr Hc.
  replace r with (Z.of_nat (Z.to_nat r)) by lia.
  replace c with (Z.of_nat (Z.to_nat c)) by lia.
  assert (Hn : (Z.to_nat r < 15)%nat) by lia.
  assert (Hm : (Z.to_nat c < 10)%nat) by lia.
  generalize dependent (Z.to_nat c). generalize dependent (Z.to_nat r).
  intros n Hn m Hm.
  do 15 (destruct n as [| n];
         [do 10 (destruct m as [| m]; [vm_compute; reflexivity |]); lia |]).
  lia.
Qed.

Lemma renderGrid_cells_on_grid (cell : Cell) :
  In cell renderGrid ->
  0 <= dataRow cell < gridRows /\ 0 <= dataCol cell < gridCols.
Proof.
  assert (Hall : forallb
            (fun cell => (0 <=? dataRow cell) && (dataRow cell <? gridRows) &&
                         (0 <=? dataCol cell) && (dataCol cell <? gridCols))
            renderGrid = true) by (vm_compute; reflexivity).
  rewrite forallb_forall in Hall. intros Hin. specialize (Hall cell Hin).
  apply andb_prop in Hall as [Hall H4]. apply andb_prop in Hall as [Hall H3].
  apply andb_prop in Hall as [H1 H2].
  apply Z.leb_le in H1, H3. apply Z.ltb_lt in H2, H4. lia.
Qed.

Lemma getCell_off_grid (r c : Z) :
  ~ (0 <= r < gridRows /\ 0 <= c < gridCols) -> getCell r c = None.
Proof.
  intros Hoff. unfold getCell.
  destruct (find (fun cell => (dataRow cell =? r) && (dataCol cell =? c))
              renderGrid) as [cell |] eqn:Hf; [| reflexivity].
  apply find_some in Hf as [Hin Hmatch].
  apply andb_prop in Hmatch as [Hr Hc].
  apply Z.eqb_eq in Hr, Hc. subst.
  exfalso. apply Hoff. apply renderGrid_cells_on_grid, Hin.
Qed.

(** X12: [renderGrid] builds 150 cells, one for each cell of the 15 by 10
    grid, in row-major order; [getCell] finds the cell of a position
    exactly when the position is on the grid, and that cell carries the
    lane class exactly on rows 1 to 13. *)
Theorem getCell_finds_exactly_the_grid :
  List.length renderGrid = 150%nat /\
  (forall i : nat, (i < 150)%nat ->
     exists cell,
       nth_error renderGrid i = Some cell /\
       dataRow cell = Z.of_nat (i / 10) /\
       dataCol cell = Z.of_nat (i mod 10)) /\
  (forall r c : Z,
     0 <= r < gridRows -> 0 <= c < gridCols ->
     getCell r c = Some (mkCell r c ((1 <=? r) && (r <=? 13)))) /\
  (forall r c : Z,
     ~ (0 <= r < gridRows /\ 0 <= c < gridCols) -> getCell r c = None).
Proof.
  split; [vm_compute; reflexivity |].
  split; [| split; [exact getCell_on_grid | exact getCell_off_grid]].
  intros i Hi.
  destruct (nth_error renderGrid i) as [cell |] eqn:Hn.
  2: { apply nth_error_None in Hn.
       change (List.length renderGrid) with 150%nat in Hn. lia. }
  exists cell. split; [reflexivity |].
  assert (Hall : forallb
            (fun i => match nth_error renderGrid i with
                      | Some cell => (dataRow cell =? Z.of_nat (i / 10)) &&
                                     (dataCol cell =? Z.of_nat (i mod 10))
                      | None => false
                      end) (seq 0 150) = true) by (vm_compute; reflexivity).
  rewrite forallb_forall in Hall.
  specialize (Hall i ltac:(apply in_seq; lia)). rewrite Hn in Hall.
  apply andb_prop in Hall as [Hr Hc]. apply Z.eqb_eq in Hr, Hc.
  split; assumption.
Qed.

Lemma getCell_finds_exactly_the_grid_witness :
  getCell 13 9 = Some (mkCell 13 9 true) /\
  getCell 14 0 = Some (mkCell 14 0 false) /\
  getCell 15 0 = None.
Proof.
  destruct getCell_finds_exactly_the_grid as (_ & _ & Hon & Hoff).
  split; [| split].
  - apply (Hon 13 9); unfold gridRows, gridCols; lia.
  - apply (Hon 14 0); unfold gridRows, gridCols; lia.
  - apply (Hoff 15 0). unfold gridRows. lia.
Defined.

Lemma renderCars_all (cs : list Car) :
  Forall (fun car => (0 <= row car < gridRows) /\ (0 <= col car < gridCols)) cs ->
  flat_map
    (fun car =>
       match getCell (row car) (col car) with
       | Some cell => [(cell, direction car)]
       | None => []
       end) cs =
  map (fun car => (mkCell (row car) (col car)
                     ((1 <=? row car) && (row car <=? 13)), direction car)) cs.
Proof.
  induction cs as [| car cs IH]; intros Hall; [reflexivity |].
  inversion Hall as [| ? ? [Hr Hc] Hrest]; subst.
  cbn [flat_map map]. rewrite (getCell_on_grid _ _ Hr Hc), (IH Hrest).
  reflexivity.
Qed.

(** X13: with [Math.random()] returning doubles in [[0, 1)], in every
    reachable state the player and every car have a cell: [renderPlayer]
    puts the player on the cell of its position, and [renderCars] draws
    each car of the array, in order, on the cell of its position. *)
Theorem player_and_cars_are_drawn (w : State) :
  reachable w -> drawsValid w ->
  renderPlayer w =
    Some (mkCell (playerRow (this w)) (playerCol (this w))
            (playerRow (this w) <=? 13)) /\
  renderCars w =
    map (fun car => (mkCell (row car) (col car) (row car <=? 13), direction car))
      (cars (this w)).
Proof.
  intros Hreach Hv.
  destruct (reachable_onGrid w Hreach) as [[Hr Hc] Hcols].
  destruct (reachable_runInv w Hreach) as (Hs & Hlow & Hhigh & _).
  pose proof (reachable_rows w Hreach Hv) as Hrows.
  split.
  - unfold renderPlayer. rewrite (getCell_on_grid _ _ Hr Hc).
    replace (1 <=? playerRow (this w)) with true
      by (symmetry; apply Z.leb_le; lia).
    reflexivity.
  - unfold renderCars. rewrite renderCars_all.
    + apply map_ext_in. intros car Hin.
      rewrite Forall_forall in Hrows. specialize (Hrows car Hin).
      replace (1 <=? row car) with true by (symmetry; apply Z.leb_le; lia).
      reflexivity.
    + apply Forall_forall. intros car Hin.
      rewrite Forall_forall in Hrows, Hcols.
      specialize (Hrows car Hin). specialize (Hcols car Hin).
      unfold gridRows. split; [lia | exact Hcols].
Qed.

Lemma player_and_cars_are_drawn_witness :
  reachable (pressKey "ArrowUp" 10 (startGame emptyRoad)) /\
  drawsValid (pressKey "ArrowUp" 10 (startGame emptyRoad)) /\
  renderPlayer (pressKey "ArrowUp" 10 (startGame emptyRoad)) =
    Some (mkCell 4 4 true).
Proof.
  assert (Hv : drawsValid (pressKey "ArrowUp" 10 (startGame emptyRoad))).
  { intros n. unfold valid_draw. vm_compute. repeat split; discriminate. }
  split; [exact tenUp_reachable |]. split; [exact Hv |].
  rewrite (proj1 (player_and_cars_are_drawn _ tenUp_reachable Hv)).
  vm_compute. reflexivity.
Defined.

Lemma carSpawnerTick_only_adds_cars_witness :
  isPlaying (this (pressKey "ArrowUp" 10 emptyRoad)) = false /\
  carSpawnerTick (pressKey "ArrowUp" 10 emptyRoad) =
    pressKey "ArrowUp" 10 emptyRoad.
Proof.
  assert (Hstop : isPlaying (this (pressKey "ArrowUp" 10 emptyRoad)) = false)
    by (vm_compute; reflexivity).
  split; [exact Hstop |].
  exact (proj1 (carSpawnerTick_only_adds_cars
                  (pressKey "ArrowUp" 10 emptyRoad)) Hstop).
Defined.

Lemma spawn_rows_attained_witness :
  1 <= 12 <= 12 /\
  exists d, valid_draw d /\ floor_times 12 d + 1 = 12.
Proof.
  assert (Hr : 1 <= 12 <= 12) by lia.
  split; [exact Hr |].
  exact (spawn_rows_attained 12 Hr).
Defined.
